(** * The [/enhance] request path of the Vibe Coder server

    A shallow embedding of [server.js]: the zod request schema, the
    sanitising step, the prompt template, the race between the provider
    call and the timer, and the ordered classification of failures in the
    [catch] block.  Two revisions of the handler are embedded: [Server]
    (the current one, with the credential and configuration rules) and
    [ServerV1] (the earlier one, with the quota rule only). *)

From Stdlib Require Import List ZArith NArith Bool Ascii String Lia.
Import ListNotations.

(** ** JavaScript strings

    A JavaScript string is a sequence of UTF-16 code units; [length],
    [trim], [includes] and [===] all work on code units. *)

Module JsString.

Definition code_unit := N.
Definition jsstring := list code_unit.

(** An ASCII literal of the source, one code unit per character. *)
Definition lit (s : string) : jsstring :=
  map N_of_ascii (list_ascii_of_string s).

(** U+26A0 U+FE0F, the warning sign used by every fallback text. *)
Definition warning_sign : jsstring := [0x26A0; 0xFE0F]%N.

Definition quote : jsstring := [34%N].
Definition backtick : jsstring := [96%N].
Definition newline : jsstring := [10%N].

(** [a === b] on two strings. *)
Fixpoint eqb (a b : jsstring) : bool :=
  match a, b with
  | [], [] => true
  | x :: a', y :: b' => N.eqb x y && eqb a' b'
  | _, _ => false
  end.

Fixpoint startsWith (s prefix : jsstring) {struct prefix} : bool :=
  match prefix, s with
  | [], _ => true
  | _ :: _, [] => false
  | p :: prefix', c :: s' => N.eqb p c && startsWith s' prefix'
  end.

(** [s.includes(needle)]. *)
Fixpoint includes (s needle : jsstring) : bool :=
  startsWith s needle
  || match s with
     | [] => false
     | _ :: s' => includes s' needle
     end.

(** WhiteSpace and LineTerminator of ECMAScript, the code units that
    [String.prototype.trim] removes. *)
Definition is_white_space (c : code_unit) : bool :=
  existsb (N.eqb c)
    [0x09; 0x0A; 0x0B; 0x0C; 0x0D; 0x20; 0xA0; 0x1680; 0x2028; 0x2029;
     0x202F; 0x205F; 0x3000; 0xFEFF]%N
  || (N.leb 0x2000 c && N.leb c 0x200A).

Fixpoint trimStart (s : jsstring) : jsstring :=
  match s with
  | [] => []
  | c :: s' => if is_white_space c then trimStart s' else s
  end.

Definition trimEnd (s : jsstring) : jsstring := rev (trimStart (rev s)).

Definition trim (s : jsstring) : jsstring := trimEnd (trimStart s).

(** [m || fallback] for a property that is a string or [undefined]: the
    empty string is falsy too. *)
Definition or_else (m : option jsstring) (fallback : jsstring) : jsstring :=
  match m with
  | Some (c :: s) => c :: s
  | _ => fallback
  end.

(** [m === s] for a property that is a string or [undefined]. *)
Definition is_exactly (m : option jsstring) (s : jsstring) : bool :=
  match m with
  | Some x => eqb x s
  | None => false
  end.

(** [m?.includes(needle)], coerced to a boolean by [||] and [if]. *)
Definition opt_includes (m : option jsstring) (needle : jsstring) : bool :=
  match m with
  | Some x => includes x needle
  | None => false
  end.

End JsString.
Import JsString.

(** ** Request bodies and the zod schema *)

(** What [express.json()] leaves in [req.body]. The payload of a number is
    never inspected by the handler. An object lists its properties in the
    order of the JSON text; as in [JSON.parse], a later duplicate wins. *)
#[local] Unset Elimination Schemes.
Inductive jsvalue :=
| JUndefined
| JNull
| JBool (b : bool)
| JNumber (z : Z)
| JString (s : jsstring)
| JArray (items : list jsvalue)
| JObject (props : list (jsstring * jsvalue)).
#[local] Set Elimination Schemes.

Definition get_prop (props : list (jsstring * jsvalue)) (key : jsstring)
  : jsvalue :=
  fold_left (fun acc kv => if eqb (fst kv) key then snd kv else acc)
            props JUndefined.

Inductive zod_issue :=
| invalid_type (path : list jsstring)
| too_small (path : list jsstring)
| too_big (path : list jsstring).

(** The checks chained on a [z.string()], kept in the order of the chain:
    zod runs them in that order, each on the data the previous ones left. *)
Inductive string_check :=
| min (n : nat)
| max (n : nat)
| trim_check.

Fixpoint run_checks (checks : list string_check) (path : list jsstring)
  (data : jsstring) (issues : list zod_issue) : jsstring * list zod_issue :=
  match checks with
  | [] => (data, issues)
  | min n :: rest =>
      run_checks rest path data
        (if Nat.ltb (List.length data) n then issues ++ [too_small path]
         else issues)
  | max n :: rest =>
      run_checks rest path data
        (if Nat.ltb n (List.length data) then issues ++ [too_big path]
         else issues)
  | trim_check :: rest => run_checks rest path (trim data) issues
  end.

(** [z.string().min(1).max(1000).trim()] *)
Definition input_schema : list string_check := [min 1; max 1000; trim_check].

(** [enhanceRequestSchema.parse(body)]: the parsed [input], or the issues
    of the [ZodError] it throws. *)
Definition enhanceRequestSchema_parse (body : jsvalue)
  : jsstring + list zod_issue :=
  match body with
  | JObject props =>
      match get_prop props (lit "input") with
      | JString s =>
          match run_checks input_schema [lit "input"] s [] with
          | (data, []) => inl data
          | (_, issues) => inr issues
          end
      | _ => inr [invalid_type [lit "input"]]
      end
  | _ => inr [invalid_type []]
  end.

(** ** Thrown values, responses and the effects of a handler *)

(** The properties of an error object that the handler reads: all five are
    logged, [message] and [status] drive the classification. A missing
    property is [None]. *)
Record jserror := {
  message : option jsstring;
  stack : option jsstring;
  status : option Z;
  code : option jsstring;
  name : option jsstring
}.

(** What a [catch] clause can receive: the [ZodError] of the schema, or
    any other error object. *)
Inductive thrown :=
| ZodError (issues : list zod_issue)
| Failure (e : jserror).

(** [new Error(msg)]; the frames under the first line of the stack depend
    on the runtime and are left out. *)
Definition new_Error (msg : jsstring) : jserror :=
  {| message := Some msg;
     stack := Some (lit "Error: " ++ msg);
     status := None;
     code := None;
     name := Some (lit "Error") |}.

(** The JSON body of a response: [{ enhanced: text }] or [{ error: text }]. *)
Inductive body :=
| body_enhanced (text : jsstring)
| body_error (text : jsstring).

Record response := { res_status : Z; res_body : body }.

Inductive log_meta :=
| meta_fields (t : thrown)            (* { message, stack, status, code, name } *)
| meta_message (m : option jsstring)  (* error.message *)
| meta_object (t : thrown).           (* the error object itself *)

Inductive log_entry :=
| log_info (text : jsstring)
| log_error (label : jsstring) (meta : log_meta).

Inductive timer_op :=
| setTimeout_op (ms : Z)
| clearTimeout_op.

(** Everything a run of the handler does to the outside: log lines, calls
    of [model.generateContent] (with their prompt), timer operations and
    the responses written to [res], each in order. *)
Record effects := {
  logs : list log_entry;
  provider_calls : list jsstring;
  timers : list timer_op;
  sent : list response
}.

Definition no_effects : effects :=
  {| logs := []; provider_calls := []; timers := []; sent := [] |}.

(** How a block of statements ends: it falls through with a value, the
    function returns, an exception is on its way up, or the function is
    parked on an [await] that never resumes. *)
Inductive completion (A : Type) :=
| Normal (a : A)
| Returned
| Thrown (t : thrown)
| Suspended.

Arguments Normal {A} a.
Arguments Returned {A}.
Arguments Thrown {A} t.
Arguments Suspended {A}.

Definition M (A : Type) := effects -> completion A * effects.

Definition ret {A} (a : A) : M A := fun fx => (Normal a, fx).

Definition bind {A B} (m : M A) (k : A -> M B) : M B :=
  fun fx =>
    match m fx with
    | (Normal a, fx') => k a fx'
    | (Returned, fx') => (Returned, fx')
    | (Thrown t, fx') => (Thrown t, fx')
    | (Suspended, fx') => (Suspended, fx')
    end.

Notation "x <- c1 ;; c2" := (bind c1 (fun x => c2))
  (at level 61, c1 at next level, right associativity).
Notation "c1 ;; c2" := (bind c1 (fun _ => c2))
  (at level 61, right associativity).

Definition throw {A} (t : thrown) : M A := fun fx => (Thrown t, fx).

(** [return;] out of the handler. *)
Definition return_ {A} : M A := fun fx => (Returned, fx).

(** [try { m } catch (e) { handler e }]: only an exception enters the
    handler; a [return] inside [m] leaves the function. *)
Definition try_catch {A} (m : M A) (handler : thrown -> M A) : M A :=
  fun fx =>
    match m fx with
    | (Thrown t, fx') => handler t fx'
    | other => other
    end.

Definition logger_info (text : jsstring) : M unit :=
  fun fx =>
    (Normal tt,
     {| logs := logs fx ++ [log_info text];
        provider_calls := provider_calls fx;
        timers := timers fx;
        sent := sent fx |}).

Definition logger_error (label : jsstring) (meta : log_meta) : M unit :=
  fun fx =>
    (Normal tt,
     {| logs := logs fx ++ [log_error label meta];
        provider_calls := provider_calls fx;
        timers := timers fx;
        sent := sent fx |}).

(** [model.generateContent(prompt)]: the call is issued and a promise comes
    back at once. *)
Definition generateContent (prompt : jsstring) : M unit :=
  fun fx =>
    (Normal tt,
     {| logs := logs fx;
        provider_calls := provider_calls fx ++ [prompt];
        timers := timers fx;
        sent := sent fx |}).

Definition timer (op : timer_op) : M unit :=
  fun fx =>
    (Normal tt,
     {| logs := logs fx;
        provider_calls := provider_calls fx;
        timers := timers fx ++ [op];
        sent := sent fx |}).

(** [res.status(n).json(b)] *)
Definition res_status_json (n : Z) (b : body) : M unit :=
  fun fx =>
    (Normal tt,
     {| logs := logs fx;
        provider_calls := provider_calls fx;
        timers := timers fx;
        sent := sent fx ++ [{| res_status := n; res_body := b |}] |}).

(** [res.json(b)]: the status code is still Express's default, 200. *)
Definition res_json (b : body) : M unit := res_status_json 200 b.

(** ** The provider and the race *)

(** What the promise of [generateContent] is fulfilled with: an object
    whose [response.text()] returns the text, or throws. *)
Inductive gen_result :=
| text_returns (t : jsstring)
| text_throws (e : jserror).

Inductive settlement :=
| Fulfils (r : gen_result)
| Rejects (e : jserror).

(** The two ways the event loop can order the provider and the timer: the
    provider's promise settles before the timer fires, or the timer fires
    first and the provider settles later, or never. *)
Inductive world :=
| ProviderFirst (s : settlement)
| TimerFirst (later : option settlement).

Inductive event :=
| ProviderSettles (s : settlement)
| TimerFires.

(** The order in which the two would settle if nothing were cancelled; a
    timer cleared in between simply never gets its turn, and a settlement
    that comes second finds the race already decided. *)
Definition arrivals (w : world) : list event :=
  match w with
  | ProviderFirst s => [ProviderSettles s; TimerFires]
  | TimerFirst later =>
      TimerFires :: match later with
                    | Some s => [ProviderSettles s]
                    | None => []
                    end
  end.

(** [Promise.race([generatePromise, timeoutPromise])]: it settles as the
    first of the two that settles, and stays that way; the timer's
    callback is [reject(new Error('Request timeout'))]. *)
Definition Promise_race (evs : list event) : option settlement :=
  match evs with
  | [] => None
  | ProviderSettles s :: _ => Some s
  | TimerFires :: _ => Some (Rejects (new_Error (lit "Request timeout")))
  end.

(** [await Promise.race([...])] *)
Definition await_race (w : world) : M gen_result :=
  match Promise_race (arrivals w) with
  | Some (Fulfils r) => ret r
  | Some (Rejects e) => throw (Failure e)
  | None => fun fx => (Suspended, fx)
  end.

(** [result.response.text()] *)
Definition response_text (r : gen_result) : M jsstring :=
  match r with
  | text_returns t => ret t
  | text_throws e => throw (Failure e)
  end.

(** [const { input } = enhanceRequestSchema.parse(req.body)] *)
Definition parse (req_body : jsvalue) : M jsstring :=
  match enhanceRequestSchema_parse req_body with
  | inl input => ret input
  | inr issues => throw (ZodError issues)
  end.

Definition REQUEST_TIMEOUT : Z := 60000.

Definition timeout_text : jsstring :=
  warning_sign ++ lit " Request timed out.".

(** The template literal of [masterPrompt], around the sanitised idea. *)
Definition masterPrompt (sanitizedInput : jsstring) : jsstring :=
  let indent := lit "      " in
  newline
  ++ List.concat (map (fun l => indent ++ l ++ newline)
       [ lit "Act as an elite Product Development Team.";
         lit "Analyze the following web app idea: " ++ quote
           ++ sanitizedInput ++ quote ++ lit ".";
         lit "Output the result in Markdown format exactly as requested previously.";
         lit "... (Keep prompts concise to save tokens) ...";
         [];
         lit "# " ++ [0x26A1]%N ++ lit " Vibe Coder Blueprint";
         lit "## " ++ [0xD83D; 0xDCA1]%N ++ lit " Strategy & Concept";
         lit "* **Project Name:** [Name]";
         lit "* **Value Proposition:** [Value]";
         lit "* **Core Features:** [Features]";
         lit "## " ++ [0xD83D; 0xDEE0]%N ++ lit " Tech Architecture";
         lit "* **Frontend:** [Stack]";
         lit "* **Backend:** [Stack]";
         lit "## " ++ [0xD83C; 0xDFA8]%N ++ lit " UI/UX Direction";
         lit "* **Vibe:** [Vibe]";
         lit "* **Color Palette:** [Colors]";
         lit "* **Typography:** [Fonts]" ])
  ++ lit "    ".

Definition processing_line (sanitizedInput : jsstring) : jsstring :=
  lit "Processing Request for: " ++ quote ++ sanitizedInput ++ quote.

Definition status_is (e : jserror) (n : Z) : bool :=
  match status e with
  | Some z => Z.eqb z n
  | None => false
  end.

(** ** The current handler *)

Module Server.

(** [error.message === 'Request timeout'] *)
Definition is_timeout (e : jserror) : bool :=
  is_exactly (message e) (lit "Request timeout").

(** [error.status === 403 || error.message?.includes('API key') ||
     error.message?.includes('leaked') || error.message?.includes('403')] *)
Definition is_credential (e : jserror) : bool :=
  status_is e 403
  || opt_includes (message e) (lit "API key")
  || opt_includes (message e) (lit "leaked")
  || opt_includes (message e) (lit "403").

(** [error.status === 429 || error.message?.includes('429')] *)
Definition is_quota (e : jserror) : bool :=
  status_is e 429 || opt_includes (message e) (lit "429").

(** [error.status === 400 || error.message?.includes('model') ||
     error.message?.includes('invalid')] *)
Definition is_configuration (e : jserror) : bool :=
  status_is e 400
  || opt_includes (message e) (lit "model")
  || opt_includes (message e) (lit "invalid").

Definition credential_guidance : jsstring :=
  lit "# " ++ warning_sign ++ lit " API Key Error" ++ newline ++ newline
  ++ lit "Your Gemini API key has been disabled or is invalid. Please:"
  ++ newline
  ++ lit "1. Generate a new API key from [Google AI Studio](https://aistudio.google.com/app/apikey)"
  ++ newline
  ++ lit "2. Update the " ++ backtick ++ lit "GEMINI_API_KEY" ++ backtick
  ++ lit " environment variable on Render" ++ newline
  ++ lit "3. Redeploy your service" ++ newline ++ newline
  ++ lit "**Error:** ".

Definition credential_text (e : jserror) : jsstring :=
  credential_guidance
  ++ or_else (message e) (lit "API key invalid or leaked").

Definition quota_text : jsstring :=
  lit "# " ++ warning_sign ++ lit " Quota Exceeded" ++ newline ++ newline
  ++ lit "**Gemini API** is currently busy. Please try again in 1 minute."
  ++ newline ++ newline
  ++ lit "*(This is a fallback response)*".

Definition configuration_heading : jsstring :=
  lit "# " ++ warning_sign ++ lit " Configuration Error" ++ newline ++ newline
  ++ lit "There's an issue with the API configuration. Please check:"
  ++ newline
  ++ lit "- Model name is valid" ++ newline
  ++ lit "- API key is correct" ++ newline ++ newline
  ++ lit "**Error:** ".

Definition configuration_text (e : jserror) : jsstring :=
  configuration_heading ++ or_else (message e) (lit "Invalid configuration").

Definition generic_heading : jsstring :=
  lit "# " ++ warning_sign ++ lit " Error Connecting to AI" ++ newline
  ++ newline ++ lit "**Error:** ".

Definition generic_footer : jsstring :=
  newline ++ newline ++ lit "Please check server logs for more details.".

Definition generic_text (e : jserror) : jsstring :=
  generic_heading ++ or_else (message e) (lit "Unknown error")
  ++ generic_footer.

(** The outer [catch (error) { ... }]. *)
Definition on_error (error : thrown) : M unit :=
  logger_error (lit "Enhancement error:") (meta_fields error) ;;
  match error with
  | ZodError _ =>
      res_status_json 400 (body_error (lit "Invalid input")) ;; return_
  | Failure e =>
      if is_timeout e then
        res_status_json 408 (body_enhanced timeout_text) ;; return_
      else if is_credential e then
        logger_error (lit "API Key Error:") (meta_message (message e)) ;;
        res_status_json 500 (body_enhanced (credential_text e)) ;; return_
      else if is_quota e then
        res_json (body_enhanced quota_text) ;; return_
      else if is_configuration e then
        logger_error (lit "API Configuration Error:")
                     (meta_message (message e)) ;;
        res_status_json 500 (body_enhanced (configuration_text e)) ;; return_
      else
        logger_error (lit "Unexpected error details:") (meta_object error) ;;
        res_status_json 500 (body_enhanced (generic_text e))
  end.

(** The inner [catch (raceError) { ... }]. The message of a [ZodError] is
    its list of issues rendered as JSON, never ['Request timeout']. *)
Definition on_race_error (raceError : thrown) : M gen_result :=
  timer clearTimeout_op ;;
  match raceError with
  | Failure e =>
      if is_timeout e then
        res_status_json 408 (body_enhanced timeout_text) ;; return_
      else throw raceError
  | ZodError _ => throw raceError
  end.

Section Handler.

(** [DOMPurifyInstance.sanitize], the DOMPurify instance built at start-up
    over a jsdom window. *)
Variable sanitize : jsstring -> jsstring.

(** The body of the outer [try]. *)
Definition try_block (req_body : jsvalue) (w : world) : M unit :=
  input <- parse req_body ;;
  let sanitizedInput := sanitize input in
  logger_info (processing_line sanitizedInput) ;;
  let prompt := masterPrompt sanitizedInput in
  generateContent prompt ;;
  timer (setTimeout_op REQUEST_TIMEOUT) ;;
  result <- try_catch
              (r <- await_race w ;;
               timer clearTimeout_op ;;
               ret r)
              on_race_error ;;
  finalOutput <- response_text result ;;
  res_json (body_enhanced finalOutput).

(** [app.post('/enhance', async (req, res) => { ... })] *)
Definition enhance (req_body : jsvalue) (w : world) : M unit :=
  try_catch (try_block req_body w) on_error.

(** One request, from a fresh [res] and empty logs. *)
Definition handle (req_body : jsvalue) (w : world)
  : completion unit * effects :=
  enhance req_body w no_effects.

End Handler.

End Server.

(** ** The earlier handler *)

Module ServerV1.

Definition quota_text : jsstring :=
  lit "# " ++ warning_sign ++ lit " Quota Exceeded" ++ newline ++ newline
  ++ lit "**Gemini 2.5 Flash** is currently busy. Please try again in 1 minute."
  ++ newline ++ newline
  ++ lit "*(This is a fallback response)*".

Definition connection_text : jsstring :=
  warning_sign ++ lit " Error connecting to AI.".

(** [catch (error) { ... }] *)
Definition on_error (error : thrown) : M unit :=
  logger_error (lit "Enhancement error:") (meta_object error) ;;
  match error with
  | ZodError _ =>
      res_status_json 400 (body_error (lit "Invalid input")) ;; return_
  | Failure e =>
      if is_exactly (message e) (lit "Request timeout") then
        res_status_json 408 (body_enhanced timeout_text) ;; return_
      else if status_is e 429 || opt_includes (message e) (lit "429") then
        res_json (body_enhanced quota_text) ;; return_
      else
        res_status_json 500 (body_enhanced connection_text)
  end.

Section Handler.

Variable sanitize : jsstring -> jsstring.

(** The timer of [timeout(ms)] is never cleared in this revision. *)
Definition try_block (req_body : jsvalue) (w : world) : M unit :=
  input <- parse req_body ;;
  let sanitizedInput := sanitize input in
  logger_info (processing_line sanitizedInput) ;;
  let prompt := masterPrompt sanitizedInput in
  generateContent prompt ;;
  timer (setTimeout_op REQUEST_TIMEOUT) ;;
  result <- await_race w ;;
  finalOutput <- response_text result ;;
  res_json (body_enhanced finalOutput).

Definition enhance (req_body : jsvalue) (w : world) : M unit :=
  try_catch (try_block req_body w) on_error.

Definition handle (req_body : jsvalue) (w : world)
  : completion unit * effects :=
  enhance req_body w no_effects.

End Handler.

End ServerV1.

(** ** The classification policy as the specification words it

    An ordered list of rules; the first rule whose guard holds decides the
    status code and the body.  The guards are the heuristics of the code,
    the last rule takes whatever is left. *)

Module Spec.

Inductive failure_kind :=
| timeout_failure
| credential_failure
| quota_failure
| configuration_failure
| generic_failure.

Record rule := {
  kind : failure_kind;
  guard : jserror -> bool;
  outcome : jserror -> response
}.

Definition priority_list : list rule :=
  [ {| kind := timeout_failure;
       guard := Server.is_timeout;
       outcome := fun _ =>
         {| res_status := 408; res_body := body_enhanced timeout_text |} |};
    {| kind := credential_failure;
       guard := Server.is_credential;
       outcome := fun e =>
         {| res_status := 500;
            res_body := body_enhanced (Server.credential_text e) |} |};
    {| kind := quota_failure;
       guard := Server.is_quota;
       outcome := fun _ =>
         {| res_status := 200;
            res_body := body_enhanced Server.quota_text |} |};
    {| kind := configuration_failure;
       guard := Server.is_configuration;
       outcome := fun e =>
         {| res_status := 500;
            res_body := body_enhanced (Server.configuration_text e) |} |};
    {| kind := generic_failure;
       guard := fun _ => true;
       outcome := fun e =>
         {| res_status := 500;
            res_body := body_enhanced (Server.generic_text e) |} |} ].

Definition first_match (rules : list rule) (e : jserror) : option rule :=
  find (fun r => guard r e) rules.

Definition classify (e : jserror) : option failure_kind :=
  option_map kind (first_match priority_list e).

Definition answer (e : jserror) : option response :=
  option_map (fun r => outcome r e) (first_match priority_list e).

End Spec.

(** ** Vocabulary of the statements *)

(** The [input] property of a request body when it is a string. *)
Definition string_input (req_body : jsvalue) : option jsstring :=
  match req_body with
  | JObject props =>
      match get_prop props (lit "input") with
      | JString s => Some s
      | _ => None
      end
  | _ => None
  end.

Definition invalid_input_response : response :=
  {| res_status := 400; res_body := body_error (lit "Invalid input") |}.

Definition timeout_response : response :=
  {| res_status := 408; res_body := body_enhanced timeout_text |}.

(** The run answered 400 [{ error: 'Invalid input' }] and never called the
    provider. *)
Definition rejected (run : completion unit * effects) : Prop :=
  sent (snd run) = [invalid_input_response] /\ provider_calls (snd run) = [].

(** The handler's promise is fulfilled: the body ran to its end or hit a
    [return]; nothing was thrown out of it and it is not left waiting. *)
Definition settled (run : completion unit * effects) : Prop :=
  fst run = Normal tt \/ fst run = Returned.

(** The provider's failure [e] reaches the handler: its promise is
    rejected with [e] before the timer fires, or it is fulfilled before the
    timer fires with a result whose [response.text()] throws [e]. *)
Definition provider_fails (w : world) (e : jserror) : Prop :=
  w = ProviderFirst (Rejects e) \/ w = ProviderFirst (Fulfils (text_throws e)).

(** The same error object with other diagnostics attached. *)
Definition with_diagnostics (e : jserror)
  (stack' code' name' : option jsstring) : jserror :=
  {| message := message e; stack := stack';
     status := status e; code := code'; name := name' |}.

(** A deliberately crude stand-in for the DOMPurify instance, used to run
    the handler on concrete inputs: it keeps the text up to the first
    ['<']. It is not DOMPurify. *)
Fixpoint demo_sanitize (s : jsstring) : jsstring :=
  match s with
  | [] => []
  | c :: s' => if N.eqb c 60 then [] else c :: demo_sanitize s'
  end.

(** The effects of a run at the point where the race has been decided and
    the timer cleared: one log line, one provider call, nothing sent. *)
Definition in_flight (sanitizedInput : jsstring) : effects :=
  {| logs := [log_info (processing_line sanitizedInput)];
     provider_calls := [masterPrompt sanitizedInput];
     timers := [setTimeout_op REQUEST_TIMEOUT; clearTimeout_op];
     sent := [] |}.

Definition respond (fx : effects) (r : response) : effects :=
  {| logs := logs fx; provider_calls := provider_calls fx;
     timers := timers fx; sent := sent fx ++ [r] |}.

Definition script_input : jsstring := lit "<script>alert(1)</script>".

Definition request (input : jsstring) : jsvalue :=
  JObject [(lit "input", JString input)].

(** Sample provider errors. *)
Definition error_with (msg : jsstring) (st : option Z) : jserror :=
  {| message := Some msg; stack := None; status := st;
     code := None; name := Some (lit "Error") |}.

(** Status 403 with internal detail in the message. *)
Definition forbidden_with_detail : jserror :=
  error_with (lit "upstream said: project 4711 is suspended") (Some 403%Z).

(** Status 429 and a message that several heuristics match. *)
Definition ambiguous_error : jserror :=
  error_with (lit "[429] API key quota: invalid model") (Some 429%Z).

Definition too_many_requests : jserror :=
  error_with (lit "[GoogleGenerativeAI Error]: [429 Too Many Requests]")
             (Some 429%Z).

(** The idea of the README's usage section, as a request. *)
Definition photographer_idea : jsstring :=
  lit "A portfolio website for a photographer".

Definition photographer_request : jsvalue := request photographer_idea.

(** ** The rest of the server *)

(** What the handler gets out of the race and of [response.text()]: the
    provider's text, or the error that lands in a [catch] clause (the
    timer's own error when the timer fires first). *)
Definition race_result (w : world) : jsstring + jserror :=
  match w with
  | ProviderFirst (Fulfils (text_returns T)) => inl T
  | ProviderFirst (Fulfils (text_throws e)) => inr e
  | ProviderFirst (Rejects e) => inr e
  | TimerFirst _ => inr (new_Error (lit "Request timeout"))
  end.

(** The effects of a run of the earlier handler once the race has been
    decided: its timer is armed and stays so. *)
Definition in_flight_v1 (sanitizedInput : jsstring) : effects :=
  {| logs := [log_info (processing_line sanitizedInput)];
     provider_calls := [masterPrompt sanitizedInput];
     timers := [setTimeout_op REQUEST_TIMEOUT];
     sent := [] |}.

(** [s.endsWith(suffix)] *)
Definition endsWith (s suffix : jsstring) : bool :=
  startsWith (rev s) (rev suffix).

(** What the [origin] function of [corsOptions] does with its callback:
    [callback(null, true)] or [callback(new Error(...))]. *)
Inductive cors_decision :=
| cors_allow
| cors_refuse (e : jserror).

(** [logger.warn(label, origin)] *)
Inductive cors_warning :=
| warn (label origin : jsstring).

(** The [origin] function of the current [corsOptions]; the header is
    [None] when the request carries no [Origin]. *)
Module Cors.

Definition is_local (o : jsstring) : bool :=
  startsWith o (lit "http://localhost:")
  || startsWith o (lit "https://localhost:")
  || startsWith o (lit "http://127.0.0.1:")
  || startsWith o (lit "https://127.0.0.1:").

Definition origin (header : option jsstring)
  : list cors_warning * cors_decision :=
  match header with
  | None | Some [] => ([], cors_allow)
  | Some o =>
      if is_local o then ([], cors_allow)
      else if includes o (lit ".vercel.app") then ([], cors_allow)
      else if includes o (lit ".onrender.com") then ([], cors_allow)
      else ([warn (lit "Blocked by CORS:") o],
            cors_refuse (new_Error (lit "Not allowed by CORS")))
  end.

End Cors.

(** The [origin] function of the earlier [corsOptions]. *)
Module CorsV1.

Definition is_local (o : jsstring) : bool :=
  startsWith o (lit "http://localhost:")
  || startsWith o (lit "http://127.0.0.1:").

Definition origin (header : option jsstring)
  : list cors_warning * cors_decision :=
  match header with
  | None | Some [] => ([], cors_allow)
  | Some o =>
      if is_local o then ([], cors_allow)
      else if endsWith o (lit ".vercel.app") then ([], cors_allow)
      else ([warn (lit "Blocked by CORS:") o],
            cors_refuse (new_Error (lit "Not allowed by CORS")))
  end.

End CorsV1.

(** ** The client hook [useEnhanceIdea] *)

Module Client.

(** The object kept by [useState]. [output] is typed as a string but
    receives whatever [data.enhanced] is. *)
Record state := {
  input : jsstring;
  output : jsvalue;
  loading : bool;
  copied : bool
}.

Definition initial : state :=
  {| input := []; output := JString []; loading := false; copied := false |}.

(** [setState(prev => ({ ...prev, input: value }))] *)
Definition setInput (value : jsstring) (prev : state) : state :=
  {| input := value; output := output prev;
     loading := loading prev; copied := copied prev |}.

(** How [await fetch(...)] and [await response.json()] end: the fetch is
    rejected, or it resolves with a status and a body that parses as JSON
    ([Some]) or does not ([None]). *)
Inductive fetch_outcome :=
| fetch_rejects
| fetch_resolves (http_status : Z) (json : option jsvalue).

(** [response.ok] *)
Definition ok (http_status : Z) : bool :=
  Z.leb 200 http_status && Z.leb http_status 299.

(** What [console.error('Error enhancing idea:', error)] is given: the
    rejection of [fetch], the error thrown for a status that is not ok, or
    the rejection of [response.json()] on a body that is not JSON. *)
Inductive caught :=
| fetch_failure
| http_error (http_status : Z)
| body_failure.

Definition error_text : jsstring :=
  lit "Error: Could not enhance the idea. Please try again.".

(** [data.enhanced]: reading a property of [null] throws a [TypeError]
    ([None]); a value that is not an object has no such property. The
    expression stands in the body of the updater given to [setState], so
    it is evaluated, and throws, when React runs the updater: after the
    [try] block has been left. *)
Definition data_enhanced (data : jsvalue) : option jsvalue :=
  match data with
  | JUndefined | JNull => None
  | JObject props => Some (get_prop props (lit "enhanced"))
  | _ => Some JUndefined
  end.

(** The first half of [enhanceIdea], up to the [fetch]: nothing happens on
    a blank input; otherwise the state is updated and the body
    [JSON.stringify({ input: state.input })] is posted. *)
Definition enhanceIdea_begin (st : state) : option (state * jsvalue) :=
  match trim (input st) with
  | [] => None
  | _ :: _ =>
      Some ({| input := input st; output := JString [];
               loading := true; copied := copied st |},
            request (input st))
  end.

Definition show (prev : state) (v : jsvalue) : state :=
  {| input := input prev; output := v;
     loading := false; copied := copied prev |}.

(** How the second half ends: the state is replaced, with what the hook
    wrote to the console on the way, or the updater queued by the [try]
    block throws when React runs it. In that case the hook's [catch] is
    not entered, nothing is written to the console by the hook and the
    state is not replaced. *)
Inductive after_fetch :=
| updated (st : state) (console : list caught)
| updater_throws.

(** The second half, once the fetch has settled, on the state as it is
    when the update is applied: the [try] block's last update or the
    [catch] block's. *)
Definition enhanceIdea_settle (o : fetch_outcome) (prev : state)
  : after_fetch :=
  match o with
  | fetch_rejects => updated (show prev (JString error_text)) [fetch_failure]
  | fetch_resolves http_status json =>
      if ok http_status then
        match json with
        | None => updated (show prev (JString error_text)) [body_failure]
        | Some data =>
            match data_enhanced data with
            | None => updater_throws
            | Some v => updated (show prev v) []
            end
        end
      else updated (show prev (JString error_text)) [http_error http_status]
  end.

(** A response of the server as the client's [fetch] receives it. *)
Definition over_the_wire (r : response) : fetch_outcome :=
  fetch_resolves (res_status r)
    (Some (match res_body r with
           | body_enhanced text => JObject [(lit "enhanced", JString text)]
           | body_error text => JObject [(lit "error", JString text)]
           end)).

End Client.

(** * Properties *)

(** ** Strings and the schema *)

Lemma trimStart_length (s : jsstring) :
  List.length (trimStart s) <= List.length s.
Proof.
  induction s as [|c s IH]; simpl; [lia|].
  destruct (is_white_space c); simpl; lia.
Qed.

Lemma trim_length (s : jsstring) : List.length (trim s) <= List.length s.
Proof.
  unfold trim, trimEnd.
  rewrite length_rev.
  etransitivity; [apply trimStart_length|].
  rewrite length_rev. apply trimStart_length.
Qed.

(** The schema looks at the length of the string as it came in: [min] and
    [max] run before [trim] in the chain. *)
Lemma run_checks_input_schema (path : list jsstring) (s : jsstring) :
  run_checks input_schema path s [] =
  (trim s,
   (if Nat.ltb (List.length s) 1 then [too_small path] else [])
   ++ (if Nat.ltb 1000 (List.length s) then [too_big path] else [])).
Proof.
  unfold input_schema. cbn [run_checks].
  destruct (Nat.ltb (List.length s) 1), (Nat.ltb 1000 (List.length s));
    reflexivity.
Qed.

Lemma parse_string_input (req_body : jsvalue) (s : jsstring) :
  string_input req_body = Some s ->
  enhanceRequestSchema_parse req_body =
  match run_checks input_schema [lit "input"] s [] with
  | (data, []) => inl data
  | (_, issues) => inr issues
  end.
Proof.
  unfold string_input, enhanceRequestSchema_parse.
  destruct req_body; try discriminate.
  destruct (get_prop props (lit "input")); try discriminate.
  intros [= ->]. reflexivity.
Qed.

Lemma parse_accepts (req_body : jsvalue) (s : jsstring) :
  string_input req_body = Some s ->
  1 <= List.length s <= 1000 ->
  enhanceRequestSchema_parse req_body = inl (trim s).
Proof.
  intros Hs Hlen. rewrite (parse_string_input _ _ Hs).
  rewrite run_checks_input_schema.
  destruct (Nat.ltb_spec (List.length s) 1); [lia|].
  destruct (Nat.ltb_spec 1000 (List.length s)); [lia|].
  reflexivity.
Qed.

Lemma parse_rejects_length (req_body : jsvalue) (s : jsstring) :
  string_input req_body = Some s ->
  List.length s < 1 \/ 1000 < List.length s ->
  exists issues, enhanceRequestSchema_parse req_body = inr issues.
Proof.
  intros Hs Hlen. rewrite (parse_string_input _ _ Hs).
  rewrite run_checks_input_schema.
  destruct (Nat.ltb_spec (List.length s) 1);
    destruct (Nat.ltb_spec 1000 (List.length s));
    try lia; eexists; reflexivity.
Qed.

Lemma parse_rejects_type (req_body : jsvalue) :
  string_input req_body = None ->
  exists issues, enhanceRequestSchema_parse req_body = inr issues.
Proof.
  unfold string_input, enhanceRequestSchema_parse.
  destruct req_body; try (intros _; eexists; reflexivity).
  destruct (get_prop props (lit "input"));
    try (intros _; eexists; reflexivity).
  discriminate.
Qed.

(** Whatever the schema returns is the trimmed [input] of a body whose
    raw length was in range. *)
Lemma parse_inl_inv (req_body : jsvalue) (input : jsstring) :
  enhanceRequestSchema_parse req_body = inl input ->
  exists s, string_input req_body = Some s
            /\ 1 <= List.length s <= 1000 /\ input = trim s.
Proof.
  intros Hp.
  destruct (string_input req_body) as [s|] eqn:Hs.
  - exists s. split; [reflexivity|].
    destruct (Nat.le_gt_cases 1 (List.length s)) as [H1|H1];
      [destruct (Nat.le_gt_cases (List.length s) 1000) as [H2|H2]|].
    + rewrite (parse_accepts _ _ Hs (conj H1 H2)) in Hp.
      injection Hp as <-. split; [lia|reflexivity].
    + destruct (parse_rejects_length _ _ Hs (or_intror H2)) as [i Hi].
      congruence.
    + destruct (parse_rejects_length _ _ Hs (or_introl H1)) as [i Hi].
      congruence.
  - destruct (parse_rejects_type _ Hs) as [i Hi]. congruence.
Qed.

(** ** Runs of the current handler *)

Lemma timer_error_is_timeout :
  Server.is_timeout (new_Error (lit "Request timeout")) = true.
Proof. vm_compute. reflexivity. Qed.

Ltac unfold_handler :=
  cbv [Server.handle Server.enhance Server.try_block Server.on_race_error
       ServerV1.handle ServerV1.enhance ServerV1.try_block
       try_catch bind ret throw return_ parse await_race response_text
       Promise_race arrivals logger_info logger_error generateContent timer
       res_json res_status_json no_effects in_flight respond
       logs provider_calls timers sent].

Section Runs.

Variable sanitize : jsstring -> jsstring.

(** A body the schema refuses: one log entry, one 400, nothing else. *)
Lemma handle_invalid (req_body : jsvalue) (issues : list zod_issue) (w : world) :
  enhanceRequestSchema_parse req_body = inr issues ->
  Server.handle sanitize req_body w =
  (Returned,
   {| logs := [log_error (lit "Enhancement error:")
                         (meta_fields (ZodError issues))];
      provider_calls := [];
      timers := [];
      sent := [invalid_input_response] |}).
Proof.
  intros Hp. unfold_handler. rewrite Hp.
  cbv [Server.on_error]. unfold_handler. reflexivity.
Qed.

(** A body the schema accepts: the run up to the race is always the same,
    and the world decides the rest. *)
Lemma handle_valid (req_body : jsvalue) (input : jsstring) (w : world) :
  enhanceRequestSchema_parse req_body = inl input ->
  Server.handle sanitize req_body w =
  match w with
  | TimerFirst _ =>
      (Returned, respond (in_flight (sanitize input)) timeout_response)
  | ProviderFirst (Fulfils (text_returns T)) =>
      (Normal tt,
       respond (in_flight (sanitize input))
               {| res_status := 200; res_body := body_enhanced T |})
  | ProviderFirst (Fulfils (text_throws e)) =>
      Server.on_error (Failure e) (in_flight (sanitize input))
  | ProviderFirst (Rejects e) =>
      if Server.is_timeout e
      then (Returned, respond (in_flight (sanitize input)) timeout_response)
      else Server.on_error (Failure e) (in_flight (sanitize input))
  end.
Proof.
  intros Hp. unfold_handler. rewrite Hp.
  destruct w as [[[T|e]|e]|later].
  - reflexivity.
  - reflexivity.
  - unfold_handler. destruct (Server.is_timeout e); reflexivity.
  - unfold_handler. rewrite timer_error_is_timeout. reflexivity.
Qed.

End Runs.

(** ** The catch block against the priority list *)

Lemma find_split {A} (f : A -> bool) (l : list A) (x : A) :
  find f l = Some x ->
  exists before after,
    l = before ++ x :: after
    /\ (forall y, In y before -> f y = false)
    /\ f x = true.
Proof.
  induction l as [|a l IH]; simpl; [discriminate|].
  destruct (f a) eqn:Hfa.
  - intros [= ->]. exists [], l. repeat split; auto.
    intros y [].
  - intros Hfind. destruct (IH Hfind) as (before & after & -> & Hb & Hx).
    exists (a :: before), after. repeat split; auto.
    intros y [<-|Hy]; auto.
Qed.

(** The chain of [if]s of the catch block answers as the first matching
    rule of the priority list says; it writes exactly one response, leaves
    the provider and the timers alone, and starts by logging the error's
    fields. *)
Lemma on_error_failure (e : jserror) (fx : effects) :
  exists r,
    Spec.first_match Spec.priority_list e = Some r
    /\ settled (Server.on_error (Failure e) fx)
    /\ sent (snd (Server.on_error (Failure e) fx))
       = sent fx ++ [Spec.outcome r e]
    /\ provider_calls (snd (Server.on_error (Failure e) fx))
       = provider_calls fx
    /\ timers (snd (Server.on_error (Failure e) fx)) = timers fx
    /\ exists more,
         logs (snd (Server.on_error (Failure e) fx))
         = (logs fx ++ [log_error (lit "Enhancement error:")
                                  (meta_fields (Failure e))]) ++ more.
Proof.
  unfold settled.
  cbv [Spec.first_match Spec.priority_list find Spec.guard Server.on_error].
  unfold_handler.
  destruct (Server.is_timeout e);
    [|destruct (Server.is_credential e);
      [|destruct (Server.is_quota e);
        [|destruct (Server.is_configuration e)]]];
    eexists; (split; [reflexivity|]); cbn [fst snd Spec.outcome];
    unfold_handler;
    (split; [auto|]); (split; [reflexivity|]); (split; [reflexivity|]);
    (split; [reflexivity|]).
  - exists []. rewrite app_nil_r. reflexivity.
  - eexists. reflexivity.
  - exists []. rewrite app_nil_r. reflexivity.
  - eexists. reflexivity.
  - eexists. reflexivity.
Qed.

Lemma priority_order :
  map Spec.kind Spec.priority_list =
  [Spec.timeout_failure; Spec.credential_failure; Spec.quota_failure;
   Spec.configuration_failure; Spec.generic_failure].
Proof. reflexivity. Qed.

Lemma first_match_total (e : jserror) :
  exists r, Spec.first_match Spec.priority_list e = Some r.
Proof. destruct (on_error_failure e no_effects) as (r & Hr & _). eauto. Qed.

Section Answers.

Variable sanitize : jsstring -> jsstring.

(** A failure of the provider that reaches the handler is answered by the
    first matching rule, whichever of the two [catch] clauses sees it. *)
Lemma handle_provider_failure (req_body : jsvalue) (input : jsstring)
  (w : world) (e : jserror) :
  enhanceRequestSchema_parse req_body = inl input ->
  provider_fails w e ->
  exists r,
    Spec.first_match Spec.priority_list e = Some r
    /\ settled (Server.handle sanitize req_body w)
    /\ sent (snd (Server.handle sanitize req_body w)) = [Spec.outcome r e]
    /\ provider_calls (snd (Server.handle sanitize req_body w))
       = [masterPrompt (sanitize input)].
Proof.
  intros Hp Hw.
  destruct (on_error_failure e (in_flight (sanitize input)))
    as (r & Hr & Hset & Hsent & Hcalls & _).
  exists r. split; [exact Hr|].
  rewrite (handle_valid sanitize _ _ w Hp).
  destruct Hw as [-> | ->].
  - destruct (Server.is_timeout e) eqn:Ht.
    + revert Hr.
      cbv [Spec.first_match Spec.priority_list find Spec.guard].
      rewrite Ht. intros [= <-].
      repeat split. right. reflexivity.
    + auto.
  - auto.
Qed.

(** Every accepted request calls the provider exactly once, with the
    template around the sanitised input. *)
Lemma handle_valid_calls (req_body : jsvalue) (input : jsstring) (w : world) :
  enhanceRequestSchema_parse req_body = inl input ->
  provider_calls (snd (Server.handle sanitize req_body w))
  = [masterPrompt (sanitize input)].
Proof.
  intros Hp.
  destruct w as [[[T|e]|e]|later].
  - rewrite (handle_valid sanitize _ _ _ Hp). reflexivity.
  - destruct (handle_provider_failure _ _
                (ProviderFirst (Fulfils (text_throws e))) e Hp)
      as (r & _ & _ & _ & Hc); [right; reflexivity | exact Hc].
  - destruct (handle_provider_failure _ _
                (ProviderFirst (Rejects e)) e Hp)
      as (r & _ & _ & _ & Hc); [left; reflexivity | exact Hc].
  - rewrite (handle_valid sanitize _ _ _ Hp). reflexivity.
Qed.

End Answers.

(** ** The input gate *)

(** The gate as the chain is written, [min] and [max] before [trim]: a
    request is answered 400 [{ error: 'Invalid input' }] without any call
    of the provider if and only if its [input] is not a string or the
    length of the string as received is outside 1..1000. The bounds were
    meant for the trimmed text (the client, too, refuses a blank idea by
    its trimmed value); on an input with white space at its ends the two
    readings part, as the next two lemmas show. *)
Lemma rejected_iff_raw_length_out_of_range
  (sanitize : jsstring -> jsstring) (req_body : jsvalue) (w : world) :
  (rejected (Server.handle sanitize req_body w) <->
   match string_input req_body with
   | Some s => List.length s < 1 \/ 1000 < List.length s
   | None => True
   end)
  /\ match string_input req_body with
     | Some s => 1000 < List.length (trim s) ->
                 rejected (Server.handle sanitize req_body w)
     | None => rejected (Server.handle sanitize req_body w)
     end.
Proof.
  assert (Hback : match string_input req_body with
                  | Some s => List.length s < 1 \/ 1000 < List.length s
                  | None => True
                  end -> rejected (Server.handle sanitize req_body w)).
  { destruct (string_input req_body) as [s|] eqn:Hs; intros Hout.
    - destruct (parse_rejects_length _ _ Hs Hout) as [issues Hi].
      rewrite (handle_invalid sanitize _ _ w Hi). split; reflexivity.
    - destruct (parse_rejects_type _ Hs) as [issues Hi].
      rewrite (handle_invalid sanitize _ _ w Hi). split; reflexivity. }
  split; [split; [|exact Hback]|].
  - intros [_ Hcalls].
    destruct (string_input req_body) as [s|] eqn:Hs; [|exact I].
    destruct (Nat.le_gt_cases 1 (List.length s)) as [H1|H1]; [|lia].
    destruct (Nat.le_gt_cases (List.length s) 1000) as [H2|H2]; [|lia].
    rewrite (handle_valid_calls sanitize _ _ w
               (parse_accepts _ _ Hs (conj H1 H2))) in Hcalls.
    discriminate.
  - destruct (string_input req_body) as [s|] eqn:Hs.
    + intros Hbig. apply Hback. right.
      pose proof (trim_length s). lia.
    + apply Hback. exact I.
Qed.

(** C1, at the failing input: an input of one space has trimmed length 0
    and should be answered 400 without any call of the provider; as the
    length tests run before [trim], it passes the schema, the provider is
    called with the template around an empty idea and the answer is the
    provider's text with status 200. *)
Lemma whitespace_only_input_reaches_provider :
  string_input (request (lit " ")) = Some (lit " ")
  /\ List.length (trim (lit " ")) = 0
  /\ ~ rejected (Server.handle demo_sanitize (request (lit " "))
                   (ProviderFirst (Fulfils (text_returns (lit "ok")))))
  /\ provider_calls
       (snd (Server.handle demo_sanitize (request (lit " "))
               (ProviderFirst (Fulfils (text_returns (lit "ok"))))))
     = [masterPrompt []]
  /\ sent
       (snd (Server.handle demo_sanitize (request (lit " "))
               (ProviderFirst (Fulfils (text_returns (lit "ok"))))))
     = [{| res_status := 200; res_body := body_enhanced (lit "ok") |}].
Proof.
  repeat split; try reflexivity.
  intros [Hsent _]. vm_compute in Hsent. discriminate.
Qed.

(** The same slip the other way round: one letter followed by a thousand
    spaces trims to length 1 and is refused. *)
Lemma padded_input_rejected :
  List.length (trim (97%N :: repeat 32%N 1000)) = 1
  /\ rejected (Server.handle demo_sanitize
                 (request (97%N :: repeat 32%N 1000)) (TimerFirst None)).
Proof. split; [|split]; vm_compute; reflexivity. Qed.

(** ** The race *)

(** C2: when the timer fires before the provider's promise settles, the
    only response is 408 with the body [{ enhanced: "(warning sign)
    Request timed out." }], whether the provider settles later (with a
    result or an error) or never; the timer was armed with 60000 ms. *)
Theorem timer_first_answers_408
  (sanitize : jsstring -> jsstring) (req_body : jsvalue) (input : jsstring)
  (later : option settlement) :
  enhanceRequestSchema_parse req_body = inl input ->
  sent (snd (Server.handle sanitize req_body (TimerFirst later)))
  = [{| res_status := 408;
        res_body := body_enhanced
                      ([0x26A0; 0xFE0F]%N ++ lit " Request timed out.") |}]
  /\ settled (Server.handle sanitize req_body (TimerFirst later))
  /\ timers (snd (Server.handle sanitize req_body (TimerFirst later)))
     = [setTimeout_op 60000; clearTimeout_op].
Proof.
  intros Hp. rewrite (handle_valid sanitize _ _ _ Hp).
  repeat split. right. reflexivity.
Qed.

Lemma timer_first_answers_408_witness :
  enhanceRequestSchema_parse photographer_request = inl photographer_idea
  /\ sent (snd (Server.handle demo_sanitize photographer_request
                  (TimerFirst (Some (Fulfils (text_returns (lit "late")))))))
     = [timeout_response].
Proof.
  assert (Hp : enhanceRequestSchema_parse photographer_request
               = inl photographer_idea) by (vm_compute; reflexivity).
  split; [exact Hp|].
  exact (proj1 (timer_first_answers_408 demo_sanitize photographer_request
                  photographer_idea
                  (Some (Fulfils (text_returns (lit "late")))) Hp)).
Defined.

(** ** Success *)

Lemma v1_handle_success (sanitize : jsstring -> jsstring)
  (req_body : jsvalue) (input T : jsstring) :
  enhanceRequestSchema_parse req_body = inl input ->
  ServerV1.handle sanitize req_body
    (ProviderFirst (Fulfils (text_returns T)))
  = (Normal tt,
     {| logs := [log_info (processing_line (sanitize input))];
        provider_calls := [masterPrompt (sanitize input)];
        timers := [setTimeout_op REQUEST_TIMEOUT];
        sent := [{| res_status := 200; res_body := body_enhanced T |}] |}).
Proof. intros Hp. unfold_handler. rewrite Hp. reflexivity. Qed.

(** C4: when the provider's promise is fulfilled before the timer fires
    and [response.text()] returns T, the only response has status 200 and
    its [enhanced] field is T itself; so it is in the earlier revision of
    the handler. *)
Theorem provider_text_passed_through
  (sanitize : jsstring -> jsstring) (req_body : jsvalue)
  (input T : jsstring) :
  enhanceRequestSchema_parse req_body = inl input ->
  sent (snd (Server.handle sanitize req_body
               (ProviderFirst (Fulfils (text_returns T)))))
  = [{| res_status := 200; res_body := body_enhanced T |}]
  /\ sent (snd (ServerV1.handle sanitize req_body
                  (ProviderFirst (Fulfils (text_returns T)))))
     = [{| res_status := 200; res_body := body_enhanced T |}].
Proof.
  intros Hp. split.
  - rewrite (handle_valid sanitize _ _ _ Hp). reflexivity.
  - rewrite (v1_handle_success sanitize _ _ T Hp). reflexivity.
Qed.

Lemma provider_text_passed_through_witness :
  enhanceRequestSchema_parse photographer_request = inl photographer_idea
  /\ sent (snd (Server.handle demo_sanitize photographer_request
                  (ProviderFirst
                     (Fulfils (text_returns (lit "<b>Blueprint</b>"))))))
     = [{| res_status := 200;
           res_body := body_enhanced (lit "<b>Blueprint</b>") |}].
Proof.
  assert (Hp : enhanceRequestSchema_parse photographer_request
               = inl photographer_idea) by (vm_compute; reflexivity).
  split; [exact Hp|].
  exact (proj1 (provider_text_passed_through demo_sanitize
                  photographer_request photographer_idea
                  (lit "<b>Blueprint</b>") Hp)).
Defined.

(** ** Substrings *)

Lemma startsWith_app (s t prefix : jsstring) :
  startsWith s prefix = true -> startsWith (s ++ t) prefix = true.
Proof.
  revert s. induction prefix as [|p prefix IH]; intros [|c s]; simpl;
    try (intros _; reflexivity); try discriminate.
  intros H. apply andb_true_iff in H as [Hc Hs].
  rewrite Hc. simpl. apply IH. exact Hs.
Qed.

Lemma includes_app_l (s t needle : jsstring) :
  includes s needle = true -> includes (s ++ t) needle = true.
Proof.
  induction s as [|c s IH]; cbn [includes app].
  - rewrite orb_false_r. destruct needle; [|discriminate].
    intros _. destruct t; reflexivity.
  - intros H. apply orb_true_iff in H as [H|H].
    + change (c :: s ++ t) with ((c :: s) ++ t).
      rewrite (startsWith_app _ t _ H). reflexivity.
    + rewrite (IH H). apply orb_true_r.
Qed.

Lemma includes_app_r (s t needle : jsstring) :
  includes t needle = true -> includes (s ++ t) needle = true.
Proof.
  intros H. induction s as [|c s IH]; cbn [includes app]; [exact H|].
  rewrite IH. apply orb_true_r.
Qed.

Lemma startsWith_self_app (s t : jsstring) : startsWith (s ++ t) s = true.
Proof.
  induction s as [|c s IH]; [destruct t; reflexivity|].
  cbn [startsWith app]. rewrite N.eqb_refl. exact IH.
Qed.

Lemma includes_startsWith (s needle : jsstring) :
  startsWith s needle = true -> includes s needle = true.
Proof. destruct s; cbn [includes]; intros ->; reflexivity. Qed.

Lemma includes_middle (a m b : jsstring) :
  includes (a ++ m ++ b) m = true.
Proof.
  apply includes_app_r, includes_startsWith, startsWith_self_app.
Qed.

(** ** Classified failures *)

(** The priority list, read as a chain of tests. *)
Lemma first_match_chain (e : jserror) :
  Spec.answer e =
  Some (if Server.is_timeout e then timeout_response
        else if Server.is_credential e then
          {| res_status := 500;
             res_body := body_enhanced (Server.credential_text e) |}
        else if Server.is_quota e then
          {| res_status := 200;
             res_body := body_enhanced Server.quota_text |}
        else if Server.is_configuration e then
          {| res_status := 500;
             res_body := body_enhanced (Server.configuration_text e) |}
        else
          {| res_status := 500;
             res_body := body_enhanced (Server.generic_text e) |})
  /\ Spec.classify e =
     Some (if Server.is_timeout e then Spec.timeout_failure
           else if Server.is_credential e then Spec.credential_failure
           else if Server.is_quota e then Spec.quota_failure
           else if Server.is_configuration e then Spec.configuration_failure
           else Spec.generic_failure).
Proof.
  cbv [Spec.answer Spec.classify Spec.first_match Spec.priority_list find
       Spec.guard option_map].
  destruct (Server.is_timeout e), (Server.is_credential e),
    (Server.is_quota e), (Server.is_configuration e);
    split; reflexivity.
Qed.

Section FailureAnswers.

Variable sanitize : jsstring -> jsstring.

Lemma handle_failure_sent (req_body : jsvalue) (input : jsstring)
  (w : world) (e : jserror) :
  enhanceRequestSchema_parse req_body = inl input ->
  provider_fails w e ->
  exists r,
    Spec.answer e = Some r
    /\ sent (snd (Server.handle sanitize req_body w)) = [r]
    /\ settled (Server.handle sanitize req_body w).
Proof.
  intros Hp Hw.
  destruct (handle_provider_failure sanitize _ _ _ _ Hp Hw)
    as (r & Hr & Hset & Hsent & _).
  exists (Spec.outcome r e). unfold Spec.answer. rewrite Hr. auto.
Qed.

(** Outside the timeout rule the failure goes through the outer catch,
    whose first statement logs the fields of the error. *)
Lemma handle_failure_logged (req_body : jsvalue) (input : jsstring)
  (w : world) (e : jserror) :
  enhanceRequestSchema_parse req_body = inl input ->
  provider_fails w e ->
  Server.is_timeout e = false ->
  In (log_error (lit "Enhancement error:") (meta_fields (Failure e)))
     (logs (snd (Server.handle sanitize req_body w))).
Proof.
  intros Hp Hw Ht.
  destruct (on_error_failure e (in_flight (sanitize input)))
    as (r & _ & _ & _ & _ & _ & more & Hlogs).
  rewrite (handle_valid sanitize _ _ w Hp).
  destruct Hw as [-> | ->]; [rewrite Ht|]; rewrite Hlogs;
    apply in_or_app; left; apply in_or_app; right; left; reflexivity.
Qed.

End FailureAnswers.

(** C5: when the provider fails with a rate-limit signal (status 429, or
    '429' in the message) and neither the timeout rule nor the credential
    rule matches, the only response has status 200 and its [enhanced]
    field is the quota fallback, which asks to try again in 1 minute. *)
Theorem quota_failure_answers_200
  (sanitize : jsstring -> jsstring) (req_body : jsvalue) (input : jsstring)
  (w : world) (e : jserror) :
  enhanceRequestSchema_parse req_body = inl input ->
  provider_fails w e ->
  Server.is_timeout e = false ->
  Server.is_credential e = false ->
  Server.is_quota e = true ->
  sent (snd (Server.handle sanitize req_body w))
  = [{| res_status := 200; res_body := body_enhanced Server.quota_text |}]
  /\ includes Server.quota_text (lit "Quota Exceeded") = true
  /\ includes Server.quota_text (lit "Please try again in 1 minute.") = true.
Proof.
  intros Hp Hw Ht Hc Hq.
  destruct (handle_failure_sent sanitize _ _ _ _ Hp Hw) as (r & Hr & Hs & _).
  rewrite (proj1 (first_match_chain e)), Ht, Hc, Hq in Hr.
  injection Hr as <-.
  split; [exact Hs|]. split; vm_compute; reflexivity.
Qed.

Lemma quota_failure_answers_200_witness :
  enhanceRequestSchema_parse photographer_request = inl photographer_idea
  /\ provider_fails (ProviderFirst (Rejects too_many_requests))
                    too_many_requests
  /\ Server.is_timeout too_many_requests = false
  /\ Server.is_credential too_many_requests = false
  /\ Server.is_quota too_many_requests = true
  /\ sent (snd (Server.handle demo_sanitize photographer_request
                  (ProviderFirst (Rejects too_many_requests))))
     = [{| res_status := 200;
           res_body := body_enhanced Server.quota_text |}].
Proof.
  assert (Hp : enhanceRequestSchema_parse photographer_request
               = inl photographer_idea) by (vm_compute; reflexivity).
  assert (Hw : provider_fails (ProviderFirst (Rejects too_many_requests))
                              too_many_requests) by (left; reflexivity).
  assert (Ht : Server.is_timeout too_many_requests = false)
    by (vm_compute; reflexivity).
  assert (Hc : Server.is_credential too_many_requests = false)
    by (vm_compute; reflexivity).
  assert (Hq : Server.is_quota too_many_requests = true)
    by (vm_compute; reflexivity).
  repeat (split; [assumption|]).
  exact (proj1 (quota_failure_answers_200 demo_sanitize _ _ _ _
                  Hp Hw Ht Hc Hq)).
Defined.

(** C6: when the provider fails with a credential signal (status 403, or
    'API key', 'leaked' or '403' in the message), the only response has
    status 500 and its [enhanced] field tells to generate a new API key
    and to update the GEMINI_API_KEY environment variable. The failure is
    the provider's: its message is not 'Request timeout', the text of the
    error that the handler's own timer makes and that the rule before
    this one answers. *)
Theorem credential_failure_answers_500
  (sanitize : jsstring -> jsstring) (req_body : jsvalue) (input : jsstring)
  (w : world) (e : jserror) :
  enhanceRequestSchema_parse req_body = inl input ->
  provider_fails w e ->
  Server.is_timeout e = false ->
  Server.is_credential e = true ->
  sent (snd (Server.handle sanitize req_body w))
  = [{| res_status := 500;
        res_body := body_enhanced (Server.credential_text e) |}]
  /\ includes (Server.credential_text e)
              (lit "Generate a new API key") = true
  /\ includes (Server.credential_text e)
              (lit "Update the " ++ backtick ++ lit "GEMINI_API_KEY"
               ++ backtick ++ lit " environment variable") = true.
Proof.
  intros Hp Hw Ht Hc.
  destruct (handle_failure_sent sanitize _ _ _ _ Hp Hw) as (r & Hr & Hs & _).
  rewrite (proj1 (first_match_chain e)), Ht, Hc in Hr.
  injection Hr as <-.
  split; [exact Hs|].
  split; apply includes_app_l; vm_compute; reflexivity.
Qed.

Lemma credential_failure_answers_500_witness :
  enhanceRequestSchema_parse photographer_request = inl photographer_idea
  /\ provider_fails (ProviderFirst (Rejects forbidden_with_detail))
                    forbidden_with_detail
  /\ Server.is_timeout forbidden_with_detail = false
  /\ Server.is_credential forbidden_with_detail = true
  /\ sent (snd (Server.handle demo_sanitize photographer_request
                  (ProviderFirst (Rejects forbidden_with_detail))))
     = [{| res_status := 500;
           res_body := body_enhanced
                         (Server.credential_text forbidden_with_detail) |}].
Proof.
  assert (Hp : enhanceRequestSchema_parse photographer_request
               = inl photographer_idea) by (vm_compute; reflexivity).
  assert (Hw : provider_fails (ProviderFirst (Rejects forbidden_with_detail))
                              forbidden_with_detail) by (left; reflexivity).
  assert (Ht : Server.is_timeout forbidden_with_detail = false)
    by (vm_compute; reflexivity).
  assert (Hc : Server.is_credential forbidden_with_detail = true)
    by (vm_compute; reflexivity).
  repeat (split; [assumption|]).
  exact (proj1 (credential_failure_answers_500 demo_sanitize _ _ _ _
                  Hp Hw Ht Hc)).
Defined.

(** The one error with the message 'Request timeout' is the handler's own,
    made by the timer: it has no status and is no credential failure. *)
Lemma timer_error_is_not_credential :
  status (new_Error (lit "Request timeout")) = None
  /\ Server.is_credential (new_Error (lit "Request timeout")) = false.
Proof. split; vm_compute; reflexivity. Qed.

(** C7: the rules are tried in the order timeout, credential, quota,
    configuration, generic, and a failure of the provider is answered by
    the first rule whose guard it satisfies: no earlier rule matches it,
    whatever later rules match as well. *)
Theorem first_matching_rule_decides
  (sanitize : jsstring -> jsstring) (req_body : jsvalue) (input : jsstring)
  (w : world) (e : jserror) :
  enhanceRequestSchema_parse req_body = inl input ->
  provider_fails w e ->
  map Spec.kind Spec.priority_list
  = [Spec.timeout_failure; Spec.credential_failure; Spec.quota_failure;
     Spec.configuration_failure; Spec.generic_failure]
  /\ exists before r after,
       Spec.priority_list = before ++ r :: after
       /\ (forall r', In r' before -> Spec.guard r' e = false)
       /\ Spec.guard r e = true
       /\ sent (snd (Server.handle sanitize req_body w))
          = [Spec.outcome r e].
Proof.
  intros Hp Hw. split; [exact priority_order|].
  destruct (handle_provider_failure sanitize _ _ _ _ Hp Hw)
    as (r & Hr & _ & Hsent & _).
  destruct (find_split _ _ _ Hr) as (before & after & Hl & Hb & Hg).
  exists before, r, after. auto.
Qed.

Lemma first_matching_rule_decides_witness :
  enhanceRequestSchema_parse photographer_request = inl photographer_idea
  /\ provider_fails (ProviderFirst (Rejects ambiguous_error)) ambiguous_error
  /\ (Server.is_credential ambiguous_error = true
      /\ Server.is_quota ambiguous_error = true
      /\ Server.is_configuration ambiguous_error = true)
  /\ exists before r after,
       Spec.priority_list = before ++ r :: after
       /\ (forall r', In r' before -> Spec.guard r' ambiguous_error = false)
       /\ Spec.guard r ambiguous_error = true
       /\ sent (snd (Server.handle demo_sanitize photographer_request
                       (ProviderFirst (Rejects ambiguous_error))))
          = [Spec.outcome r ambiguous_error].
Proof.
  assert (Hp : enhanceRequestSchema_parse photographer_request
               = inl photographer_idea) by (vm_compute; reflexivity).
  assert (Hw : provider_fails (ProviderFirst (Rejects ambiguous_error))
                              ambiguous_error) by (left; reflexivity).
  split; [exact Hp|]. split; [exact Hw|].
  split; [repeat split; vm_compute; reflexivity|].
  exact (proj2 (first_matching_rule_decides demo_sanitize _ _ _ _ Hp Hw)).
Defined.

(** The ambiguous error satisfies three guards; the credential rule, the
    earliest of them, answers. *)
Example ambiguous_error_is_credential :
  Spec.classify ambiguous_error = Some Spec.credential_failure
  /\ sent (snd (Server.handle demo_sanitize photographer_request
                  (ProviderFirst (Rejects ambiguous_error))))
     = [{| res_status := 500;
           res_body := body_enhanced
                         (Server.credential_text ambiguous_error) |}].
Proof. split; vm_compute; reflexivity. Qed.

(** ** What a failure response reveals *)

Lemma answer_with_diagnostics (e : jserror)
  (stack' code' name' : option jsstring) :
  Spec.answer (with_diagnostics e stack' code' name') = Spec.answer e.
Proof.
  rewrite (proj1 (first_match_chain e)).
  rewrite (proj1 (first_match_chain (with_diagnostics e stack' code' name'))).
  reflexivity.
Qed.

(** C8 (as amended): of the diagnostics of a provider failure, the stack,
    the code and the name never reach the client; the timeout and quota
    answers are fixed texts; the credential, configuration and generic
    answers each end with, or embed, the provider's own message text (a
    fixed default when the message is missing or empty). The fields of the
    error are logged whenever the failure is not taken for a timeout. *)
Theorem failure_response_reveals_message_only
  (sanitize : jsstring -> jsstring) (req_body : jsvalue) (input : jsstring)
  (w : world) (e : jserror) :
  enhanceRequestSchema_parse req_body = inl input ->
  provider_fails w e ->
  sent (snd (Server.handle sanitize req_body w))
  = [match Spec.classify e with
     | Some Spec.timeout_failure =>
         {| res_status := 408; res_body := body_enhanced timeout_text |}
     | Some Spec.credential_failure =>
         {| res_status := 500;
            res_body := body_enhanced
              (Server.credential_guidance
               ++ or_else (message e) (lit "API key invalid or leaked")) |}
     | Some Spec.quota_failure =>
         {| res_status := 200;
            res_body := body_enhanced Server.quota_text |}
     | Some Spec.configuration_failure =>
         {| res_status := 500;
            res_body := body_enhanced
              (Server.configuration_heading
               ++ or_else (message e) (lit "Invalid configuration")) |}
     | _ =>
         {| res_status := 500;
            res_body := body_enhanced
              (Server.generic_heading
               ++ or_else (message e) (lit "Unknown error")
               ++ Server.generic_footer) |}
     end]
  /\ (forall (stack' code' name' : option jsstring) (w' : world),
        provider_fails w' (with_diagnostics e stack' code' name') ->
        sent (snd (Server.handle sanitize req_body w'))
        = sent (snd (Server.handle sanitize req_body w)))
  /\ (Server.is_timeout e = false ->
      In (log_error (lit "Enhancement error:") (meta_fields (Failure e)))
         (logs (snd (Server.handle sanitize req_body w)))).
Proof.
  intros Hp Hw.
  destruct (handle_failure_sent sanitize _ _ _ _ Hp Hw) as (r & Hr & Hs & _).
  split; [|split].
  - rewrite Hs. f_equal.
    destruct (first_match_chain e) as [Ha Hk].
    rewrite Ha in Hr. injection Hr as <-. rewrite Hk.
    destruct (Server.is_timeout e), (Server.is_credential e),
      (Server.is_quota e), (Server.is_configuration e); reflexivity.
  - intros stack' code' name' w' Hw'.
    destruct (handle_failure_sent sanitize _ _ _ _ Hp Hw')
      as (r' & Hr' & Hs' & _).
    rewrite answer_with_diagnostics in Hr'. congruence.
  - intros Ht. exact (handle_failure_logged sanitize _ _ _ _ Hp Hw Ht).
Qed.

Lemma failure_response_reveals_message_only_witness :
  enhanceRequestSchema_parse photographer_request = inl photographer_idea
  /\ provider_fails (ProviderFirst (Fulfils (text_throws too_many_requests)))
                    too_many_requests
  /\ sent (snd (Server.handle demo_sanitize photographer_request
                  (ProviderFirst (Fulfils (text_throws too_many_requests)))))
     = [{| res_status := 200;
           res_body := body_enhanced Server.quota_text |}].
Proof.
  assert (Hp : enhanceRequestSchema_parse photographer_request
               = inl photographer_idea) by (vm_compute; reflexivity).
  assert (Hw : provider_fails
                 (ProviderFirst (Fulfils (text_throws too_many_requests)))
                 too_many_requests) by (right; reflexivity).
  split; [exact Hp|]. split; [exact Hw|].
  exact (proj1 (failure_response_reveals_message_only demo_sanitize
                  _ _ _ _ Hp Hw)).
Defined.

(** C8, the claim as stated fails: a failure with status 403 is answered
    by the credential rule, not the generic one, and the body carries the
    provider's message text; another message gives another body. *)
Lemma credential_answer_echoes_message :
  Spec.classify forbidden_with_detail = Some Spec.credential_failure
  /\ sent (snd (Server.handle demo_sanitize photographer_request
                  (ProviderFirst (Rejects forbidden_with_detail))))
     = [{| res_status := 500;
           res_body := body_enhanced
             (Server.credential_guidance
              ++ lit "upstream said: project 4711 is suspended") |}]
  /\ includes (Server.credential_guidance
               ++ lit "upstream said: project 4711 is suspended")
              (lit "upstream said: project 4711 is suspended") = true
  /\ sent (snd (Server.handle demo_sanitize photographer_request
                  (ProviderFirst
                     (Rejects (error_with (lit "other") (Some 403%Z))))))
     <> sent (snd (Server.handle demo_sanitize photographer_request
                     (ProviderFirst (Rejects forbidden_with_detail)))).
Proof.
  split; [vm_compute; reflexivity|].
  split; [vm_compute; reflexivity|].
  split; [vm_compute; reflexivity|].
  vm_compute. discriminate.
Qed.

(** In the three echoing cases a non-empty message is a substring of the
    body. *)
Lemma echoed_message_is_in_body (e : jserror) (m : jsstring) :
  message e = Some m -> m <> [] ->
  includes (Server.credential_text e) m = true
  /\ includes (Server.configuration_text e) m = true
  /\ includes (Server.generic_text e) m = true.
Proof.
  intros Hm Hne.
  unfold Server.credential_text, Server.configuration_text,
    Server.generic_text.
  rewrite Hm. destruct m as [|c m]; [congruence|]. cbn [or_else].
  repeat split.
  - rewrite <- (app_nil_r (c :: m)) at 1. apply includes_middle.
  - rewrite <- (app_nil_r (c :: m)) at 1. apply includes_middle.
  - apply includes_middle.
Qed.

(** ** The boundary of the handler *)

Lemma answer_is_enhanced (e : jserror) (r : response) :
  Spec.answer e = Some r -> exists text, res_body r = body_enhanced text.
Proof.
  rewrite (proj1 (first_match_chain e)). intros [= <-].
  destruct (Server.is_timeout e), (Server.is_credential e),
    (Server.is_quota e), (Server.is_configuration e);
    eexists; reflexivity.
Qed.

(** C9: whatever the body of the request and however the race ends, the
    handler's promise is fulfilled (nothing is thrown out of it and it is
    not left waiting) and exactly one response has been written: 400
    [{ error: 'Invalid input' }] when the schema refuses the body, and a
    body of the shape [{ enhanced: text }] in every other case. *)
Theorem handler_always_answers
  (sanitize : jsstring -> jsstring) (req_body : jsvalue) (w : world) :
  settled (Server.handle sanitize req_body w)
  /\ exists r,
       sent (snd (Server.handle sanitize req_body w)) = [r]
       /\ match enhanceRequestSchema_parse req_body with
          | inr _ => r = invalid_input_response
          | inl _ => exists text, res_body r = body_enhanced text
          end.
Proof.
  destruct (enhanceRequestSchema_parse req_body) as [input|issues] eqn:Hp.
  - assert (Hfail : forall e, provider_fails w e ->
              settled (Server.handle sanitize req_body w)
              /\ exists r,
                   sent (snd (Server.handle sanitize req_body w)) = [r]
                   /\ exists text, res_body r = body_enhanced text).
    { intros e Hw.
      destruct (handle_failure_sent sanitize _ _ _ _ Hp Hw)
        as (r & Hr & Hs & Hset).
      split; [exact Hset|]. exists r. split; [exact Hs|].
      exact (answer_is_enhanced _ _ Hr). }
    destruct w as [[[T|e]|e]|later].
    + rewrite (handle_valid sanitize _ _ _ Hp).
      split; [left; reflexivity|]. eexists. split; [reflexivity|].
      eexists. reflexivity.
    + apply (Hfail e). right. reflexivity.
    + apply (Hfail e). left. reflexivity.
    + rewrite (handle_valid sanitize _ _ _ Hp).
      split; [right; reflexivity|]. eexists. split; [reflexivity|].
      eexists. reflexivity.
  - rewrite (handle_invalid sanitize _ _ w Hp).
    split; [right; reflexivity|]. eexists. split; reflexivity.
Qed.

(** ** Sanitising *)

(** X16: the prompt and the request line of the log are built from the
    output of the sanitiser on the validated (trimmed) input and from
    nothing else of the request: two accepted bodies whose sanitised
    inputs are equal give the same run, effect for effect; a body that
    fails validation reaches neither the provider nor the request line of
    the log. *)
Theorem run_takes_input_through_sanitizer_only
  (sanitize : jsstring -> jsstring) (req_body : jsvalue) (w : world) :
  match enhanceRequestSchema_parse req_body with
  | inl input =>
      provider_calls (snd (Server.handle sanitize req_body w))
      = [masterPrompt (sanitize input)]
      /\ In (log_info (processing_line (sanitize input)))
            (logs (snd (Server.handle sanitize req_body w)))
      /\ (forall (req_body' : jsvalue) (input' : jsstring),
            enhanceRequestSchema_parse req_body' = inl input' ->
            sanitize input' = sanitize input ->
            Server.handle sanitize req_body' w
            = Server.handle sanitize req_body w)
  | inr issues =>
      provider_calls (snd (Server.handle sanitize req_body w)) = []
      /\ logs (snd (Server.handle sanitize req_body w))
         = [log_error (lit "Enhancement error:")
                      (meta_fields (ZodError issues))]
  end.
Proof.
  destruct (enhanceRequestSchema_parse req_body) as [input|issues] eqn:Hp.
  - split; [exact (handle_valid_calls sanitize _ _ w Hp)|].
    split.
    + rewrite (handle_valid sanitize _ _ w Hp).
      assert (Hcatch : forall e,
                In (log_info (processing_line (sanitize input)))
                   (logs (snd (Server.on_error (Failure e)
                                 (in_flight (sanitize input)))))).
      { intros e.
        destruct (on_error_failure e (in_flight (sanitize input)))
          as (r & _ & _ & _ & _ & _ & more & ->).
        apply in_or_app. left. apply in_or_app. left. left. reflexivity. }
      destruct w as [[[T|e]|e]|later]; try apply Hcatch;
        try (left; reflexivity).
      destruct (Server.is_timeout e); [left; reflexivity|apply Hcatch].
    + intros req_body' input' Hp' Hsame.
      rewrite (handle_valid sanitize _ _ w Hp).
      rewrite (handle_valid sanitize _ _ w Hp').
      rewrite Hsame. reflexivity.
  - rewrite (handle_invalid sanitize _ _ w Hp). split; reflexivity.
Qed.

(** C10: the input ['<script>alert(1)</script>'] has 25 code units and
    passes the schema; if the sanitiser turns it into the empty string, as
    DOMPurify does with a script element, nothing checks the result again:
    the provider is called once, with the template around an empty idea,
    and the request is not rejected. *)
Theorem empty_sanitized_idea_still_sent
  (sanitize : jsstring -> jsstring) (w : world) :
  sanitize script_input = [] ->
  enhanceRequestSchema_parse (request script_input) = inl script_input
  /\ List.length script_input = 25
  /\ provider_calls (snd (Server.handle sanitize (request script_input) w))
     = [masterPrompt []]
  /\ includes (masterPrompt [])
              (lit "web app idea: " ++ quote ++ quote ++ lit ".") = true
  /\ ~ rejected (Server.handle sanitize (request script_input) w).
Proof.
  intros Hempty.
  assert (Hp : enhanceRequestSchema_parse (request script_input)
               = inl script_input) by (vm_compute; reflexivity).
  pose proof (handle_valid_calls sanitize _ _ w Hp) as Hcalls.
  rewrite Hempty in Hcalls.
  split; [exact Hp|]. split; [reflexivity|]. split; [exact Hcalls|].
  split; [vm_compute; reflexivity|].
  intros [_ Hnone]. rewrite Hcalls in Hnone. discriminate.
Qed.

Lemma empty_sanitized_idea_still_sent_witness :
  demo_sanitize script_input = []
  /\ provider_calls
       (snd (Server.handle demo_sanitize (request script_input)
               (ProviderFirst (Fulfils (text_returns (lit "ok"))))))
     = [masterPrompt []].
Proof.
  assert (Hempty : demo_sanitize script_input = [])
    by (vm_compute; reflexivity).
  split; [exact Hempty|].
  exact (proj1 (proj2 (proj2
    (empty_sanitized_idea_still_sent demo_sanitize
       (ProviderFirst (Fulfils (text_returns (lit "ok")))) Hempty)))).
Defined.

(** * Further properties of the handlers *)

(** ** Runs, by what comes out of the race *)

Section RunsByResult.

Variable sanitize : jsstring -> jsstring.

(** The response of the current handler to an accepted request. *)
Lemma handle_accepted_sent (req_body : jsvalue) (input : jsstring)
  (w : world) :
  enhanceRequestSchema_parse req_body = inl input ->
  settled (Server.handle sanitize req_body w)
  /\ exists r,
       sent (snd (Server.handle sanitize req_body w)) = [r]
       /\ match race_result w with
          | inl T => r = {| res_status := 200; res_body := body_enhanced T |}
          | inr e => Spec.answer e = Some r
          end.
Proof.
  intros Hp.
  assert (Hfail : forall e, provider_fails w e ->
            settled (Server.handle sanitize req_body w)
            /\ exists r,
                 sent (snd (Server.handle sanitize req_body w)) = [r]
                 /\ Spec.answer e = Some r).
  { intros e Hw.
    destruct (handle_failure_sent sanitize _ _ _ _ Hp Hw)
      as (r & Hr & Hs & Hset). eauto. }
  destruct w as [[[T|e]|e]|later]; cbn [race_result].
  - rewrite (handle_valid sanitize _ _ _ Hp).
    split; [left; reflexivity|]. eexists. split; reflexivity.
  - apply Hfail. right. reflexivity.
  - apply Hfail. left. reflexivity.
  - rewrite (handle_valid sanitize _ _ _ Hp).
    split; [right; reflexivity|]. eexists. split; [reflexivity|].
    vm_compute. reflexivity.
Qed.

(** The catch block of the earlier handler. *)
Lemma v1_on_error_failure (e : jserror) (fx : effects) :
  settled (ServerV1.on_error (Failure e) fx)
  /\ snd (ServerV1.on_error (Failure e) fx)
     = {| logs := logs fx ++ [log_error (lit "Enhancement error:")
                                        (meta_object (Failure e))];
          provider_calls := provider_calls fx;
          timers := timers fx;
          sent := sent fx
                  ++ [if is_exactly (message e) (lit "Request timeout")
                      then timeout_response
                      else if status_is e 429
                              || opt_includes (message e) (lit "429")
                      then {| res_status := 200;
                              res_body := body_enhanced
                                            ServerV1.quota_text |}
                      else {| res_status := 500;
                              res_body := body_enhanced
                                            ServerV1.connection_text |}] |}.
Proof.
  unfold settled. cbv [ServerV1.on_error]. unfold_handler.
  destruct (is_exactly (message e) (lit "Request timeout"));
    [|destruct (status_is e 429 || opt_includes (message e) (lit "429"))];
    cbn [fst snd]; auto.
Qed.

Lemma v1_handle_invalid (req_body : jsvalue) (issues : list zod_issue)
  (w : world) :
  enhanceRequestSchema_parse req_body = inr issues ->
  ServerV1.handle sanitize req_body w =
  (Returned,
   {| logs := [log_error (lit "Enhancement error:")
                         (meta_object (ZodError issues))];
      provider_calls := [];
      timers := [];
      sent := [invalid_input_response] |}).
Proof.
  intros Hp. unfold_handler. rewrite Hp.
  cbv [ServerV1.on_error]. unfold_handler. reflexivity.
Qed.

Lemma v1_handle_valid (req_body : jsvalue) (input : jsstring) (w : world) :
  enhanceRequestSchema_parse req_body = inl input ->
  ServerV1.handle sanitize req_body w =
  match race_result w with
  | inl T =>
      (Normal tt,
       respond (in_flight_v1 (sanitize input))
               {| res_status := 200; res_body := body_enhanced T |})
  | inr e => ServerV1.on_error (Failure e) (in_flight_v1 (sanitize input))
  end.
Proof.
  intros Hp. unfold_handler. rewrite Hp.
  destruct w as [[[T|e]|e]|later]; reflexivity.
Qed.

End RunsByResult.

(** ** The timer *)

(** X1: the current handler arms one timer of 60000 ms for every accepted
    request and clears it exactly once on every path (success, provider
    failure, timeout); the earlier handler arms the same timer and never
    clears it; a refused request arms none. *)
Theorem timer_cleared_on_every_path
  (sanitize : jsstring -> jsstring) (req_body : jsvalue) (w : world) :
  timers (snd (Server.handle sanitize req_body w))
  = match enhanceRequestSchema_parse req_body with
    | inl _ => [setTimeout_op 60000; clearTimeout_op]
    | inr _ => []
    end
  /\ timers (snd (ServerV1.handle sanitize req_body w))
     = match enhanceRequestSchema_parse req_body with
       | inl _ => [setTimeout_op 60000]
       | inr _ => []
       end.
Proof.
  destruct (enhanceRequestSchema_parse req_body) as [input|issues] eqn:Hp.
  - split.
    + rewrite (handle_valid sanitize _ _ w Hp).
      assert (Hcatch : forall e,
                timers (snd (Server.on_error (Failure e)
                               (in_flight (sanitize input))))
                = [setTimeout_op 60000; clearTimeout_op]).
      { intros e.
        destruct (on_error_failure e (in_flight (sanitize input)))
          as (r & _ & _ & _ & _ & Ht & _). exact Ht. }
      destruct w as [[[T|e]|e]|later]; try apply Hcatch; try reflexivity.
      destruct (Server.is_timeout e); [reflexivity|apply Hcatch].
    + rewrite (v1_handle_valid sanitize _ _ w Hp).
      destruct (race_result w) as [T|e]; [reflexivity|].
      rewrite (proj2 (v1_on_error_failure e _)). reflexivity.
  - rewrite (handle_invalid sanitize _ _ w Hp).
    rewrite (v1_handle_invalid sanitize _ _ w Hp). split; reflexivity.
Qed.

(** ** What the status code tells *)

Ltac split_cases :=
  repeat match goal with
         | |- _ /\ _ => split
         | |- _ <-> _ => split
         | |- _ -> _ => intro
         | H : exists _, _ |- _ => destruct H
         | H : _ /\ _ |- _ => destruct H
         | H : _ \/ _ |- _ => destruct H
         | H : inl _ = inr _ |- _ => discriminate H
         | H : inr _ = inl _ |- _ => discriminate H
         | H : inr _ = inr _ |- _ => injection H as H; subst
         | H : inl _ = inl _ |- _ => injection H as H; subst
         | H : Z.pos _ = Z.pos _ |- _ => discriminate H
         end.

(** X2: the current handler writes exactly one response, and its status
    code identifies the outcome: 400 exactly when the schema refuses the
    body; 408 exactly when an accepted request ends in an error whose
    message is 'Request timeout' (the timer's, or a provider error of that
    name); 200 exactly when an accepted request gets the provider's text
    or a failure that the quota rule answers; 500 in every other case. *)
Theorem status_tells_outcome
  (sanitize : jsstring -> jsstring) (req_body : jsvalue) (w : world) :
  exists r,
    sent (snd (Server.handle sanitize req_body w)) = [r]
    /\ (res_status r = 400%Z
        <-> exists issues, enhanceRequestSchema_parse req_body = inr issues)
    /\ (res_status r = 408%Z
        <-> (exists input, enhanceRequestSchema_parse req_body = inl input)
            /\ exists e, race_result w = inr e
                         /\ Server.is_timeout e = true)
    /\ (res_status r = 200%Z
        <-> (exists input, enhanceRequestSchema_parse req_body = inl input)
            /\ ((exists T, race_result w = inl T)
                \/ exists e, race_result w = inr e
                             /\ Spec.classify e = Some Spec.quota_failure))
    /\ (res_status r = 400 \/ res_status r = 408
        \/ res_status r = 200 \/ res_status r = 500)%Z.
Proof.
  destruct (enhanceRequestSchema_parse req_body) as [input|issues] eqn:Hp.
  - destruct (handle_accepted_sent sanitize _ _ w Hp) as (_ & r & Hs & Hr).
    exists r. split; [exact Hs|].
    destruct (race_result w) as [T|e] eqn:Hw.
    + subst r. cbn [res_status].
      split_cases; try reflexivity; eauto 6.
    + destruct (first_match_chain e) as [Ha Hk].
      rewrite Ha in Hr. injection Hr as <-. revert Hk.
      destruct (Server.is_timeout e) eqn:Ht;
        [|destruct (Server.is_credential e);
          [|destruct (Server.is_quota e);
            [|destruct (Server.is_configuration e)]]];
        intros Hk; cbn [res_status timeout_response];
        split_cases; try reflexivity; try congruence; eauto 6.
  - rewrite (handle_invalid sanitize _ _ w Hp).
    exists invalid_input_response. split; [reflexivity|].
    cbn [res_status invalid_input_response].
    split_cases; try reflexivity; eauto 6.
Qed.

(** ** The response and the request *)

(** X3: the response to an accepted request is decided by the race alone:
    two accepted bodies, even under two different sanitisers, get the same
    response in the same world. The handler itself never reflects the
    user's input back. *)
Theorem response_independent_of_accepted_input
  (sanitize1 sanitize2 : jsstring -> jsstring)
  (body1 body2 : jsvalue) (input1 input2 : jsstring) (w : world) :
  enhanceRequestSchema_parse body1 = inl input1 ->
  enhanceRequestSchema_parse body2 = inl input2 ->
  sent (snd (Server.handle sanitize1 body1 w))
  = sent (snd (Server.handle sanitize2 body2 w)).
Proof.
  intros Hp1 Hp2.
  destruct (handle_accepted_sent sanitize1 _ _ w Hp1) as (_ & r1 & -> & H1).
  destruct (handle_accepted_sent sanitize2 _ _ w Hp2) as (_ & r2 & -> & H2).
  destruct (race_result w) as [T|e]; [congruence|].
  rewrite H1 in H2. injection H2 as <-. reflexivity.
Qed.

Lemma response_independent_of_accepted_input_witness :
  enhanceRequestSchema_parse photographer_request = inl photographer_idea
  /\ enhanceRequestSchema_parse (request script_input) = inl script_input
  /\ sent (snd (Server.handle demo_sanitize photographer_request
                  (ProviderFirst (Rejects too_many_requests))))
     = sent (snd (Server.handle (fun s => s) (request script_input)
                    (ProviderFirst (Rejects too_many_requests)))).
Proof.
  assert (Hp1 : enhanceRequestSchema_parse photographer_request
                = inl photographer_idea) by (vm_compute; reflexivity).
  assert (Hp2 : enhanceRequestSchema_parse (request script_input)
                = inl script_input) by (vm_compute; reflexivity).
  split; [exact Hp1|]. split; [exact Hp2|].
  exact (response_independent_of_accepted_input demo_sanitize (fun s => s)
           _ _ _ _ (ProviderFirst (Rejects too_many_requests)) Hp1 Hp2).
Defined.

(** ** The log of a timeout *)

(** X4: when the timer fires first, the current handler answers from the
    inner catch and leaves no error entry in the log, only the line of the
    request; the earlier handler, which has no inner catch, logs the
    timer's error. *)
Theorem timeout_logged_only_by_earlier_handler
  (sanitize : jsstring -> jsstring) (req_body : jsvalue) (input : jsstring)
  (later : option settlement) :
  enhanceRequestSchema_parse req_body = inl input ->
  logs (snd (Server.handle sanitize req_body (TimerFirst later)))
  = [log_info (processing_line (sanitize input))]
  /\ logs (snd (ServerV1.handle sanitize req_body (TimerFirst later)))
     = [log_info (processing_line (sanitize input));
        log_error (lit "Enhancement error:")
          (meta_object (Failure (new_Error (lit "Request timeout"))))].
Proof.
  intros Hp. split.
  - rewrite (handle_valid sanitize _ _ _ Hp). reflexivity.
  - rewrite (v1_handle_valid sanitize _ _ _ Hp). cbn [race_result].
    rewrite (proj2 (v1_on_error_failure _ _)). reflexivity.
Qed.

Lemma timeout_logged_only_by_earlier_handler_witness :
  enhanceRequestSchema_parse photographer_request = inl photographer_idea
  /\ logs (snd (Server.handle demo_sanitize photographer_request
                  (TimerFirst None)))
     = [log_info (processing_line (demo_sanitize photographer_idea))].
Proof.
  assert (Hp : enhanceRequestSchema_parse photographer_request
               = inl photographer_idea) by (vm_compute; reflexivity).
  split; [exact Hp|].
  exact (proj1 (timeout_logged_only_by_earlier_handler demo_sanitize
                  _ _ None Hp)).
Defined.

(** ** The earlier handler *)

(** X5: the earlier handler, too, always ends with exactly one response,
    and its failure answers are three fixed responses: whatever the error
    says, the body is the timeout text, the quota text or the connection
    text, so nothing of the provider's message reaches the client. *)
Theorem v1_answers_once_with_fixed_text
  (sanitize : jsstring -> jsstring) (req_body : jsvalue) (w : world) :
  settled (ServerV1.handle sanitize req_body w)
  /\ exists r,
       sent (snd (ServerV1.handle sanitize req_body w)) = [r]
       /\ match enhanceRequestSchema_parse req_body, race_result w with
          | inr _, _ => r = invalid_input_response
          | inl _, inl T =>
              r = {| res_status := 200; res_body := body_enhanced T |}
          | inl _, inr _ =>
              In r [ timeout_response;
                     {| res_status := 200;
                        res_body := body_enhanced ServerV1.quota_text |};
                     {| res_status := 500;
                        res_body := body_enhanced
                                      ServerV1.connection_text |} ]
          end.
Proof.
  destruct (enhanceRequestSchema_parse req_body) as [input|issues] eqn:Hp.
  - rewrite (v1_handle_valid sanitize _ _ w Hp).
    destruct (race_result w) as [T|e].
    + split; [left; reflexivity|]. eexists. split; reflexivity.
    + destruct (v1_on_error_failure e (in_flight_v1 (sanitize input)))
        as [Hset Hfx].
      split; [exact Hset|]. rewrite Hfx. cbn [sent in_flight_v1 app].
      eexists. split; [reflexivity|].
      destruct (is_exactly (message e) (lit "Request timeout"));
        [|destruct (status_is e 429
                    || opt_includes (message e) (lit "429"))];
        cbn [In]; auto.
  - rewrite (v1_handle_invalid sanitize _ _ w Hp).
    split; [right; reflexivity|]. eexists. split; reflexivity.
Qed.

(** X6: the two revisions write the same response whenever the schema
    refuses the body, the provider's text comes back, or the failure is
    taken for a timeout. On any other failure their status codes agree
    exactly when the error does not satisfy both the credential and the
    quota test: such an error is a 200 for the earlier handler and a 500
    for the current one. *)
Theorem revisions_agree_except_credential_quota
  (sanitize : jsstring -> jsstring) (req_body : jsvalue) (w : world) :
  match enhanceRequestSchema_parse req_body, race_result w with
  | inl _, inr e =>
      if Server.is_timeout e
      then sent (snd (ServerV1.handle sanitize req_body w))
           = sent (snd (Server.handle sanitize req_body w))
      else (map res_status (sent (snd (ServerV1.handle sanitize req_body w)))
            = map res_status (sent (snd (Server.handle sanitize req_body w)))
            <-> Server.is_credential e && Server.is_quota e = false)
  | _, _ =>
      sent (snd (ServerV1.handle sanitize req_body w))
      = sent (snd (Server.handle sanitize req_body w))
  end.
Proof.
  destruct (enhanceRequestSchema_parse req_body) as [input|issues] eqn:Hp.
  - destruct (handle_accepted_sent sanitize _ _ w Hp) as (_ & r & Hs & Hr).
    rewrite Hs. rewrite (v1_handle_valid sanitize _ _ w Hp).
    destruct (race_result w) as [T|e].
    + subst r. reflexivity.
    + rewrite (proj2 (v1_on_error_failure e _)).
      cbn [sent in_flight_v1 app].
      rewrite (proj1 (first_match_chain e)) in Hr. injection Hr as <-.
      change (is_exactly (message e) (lit "Request timeout"))
        with (Server.is_timeout e).
      change (status_is e 429 || opt_includes (message e) (lit "429"))
        with (Server.is_quota e).
      destruct (Server.is_timeout e); [reflexivity|].
      destruct (Server.is_credential e), (Server.is_quota e),
        (Server.is_configuration e); cbn [map res_status andb];
        split; intros H; try reflexivity; discriminate H.
  - rewrite (handle_invalid sanitize _ _ w Hp).
    rewrite (v1_handle_invalid sanitize _ _ w Hp). reflexivity.
Qed.

(** ** Errors without a message *)

Lemma opt_includes_blank (m : option jsstring) (needle : jsstring) :
  m = None \/ m = Some [] -> needle <> [] -> opt_includes m needle = false.
Proof.
  intros [-> | ->] Hn; [reflexivity|].
  destruct needle; [congruence|reflexivity].
Qed.

(** X7: a provider error whose message is missing or empty can only be
    classified by its status: 403 gives the credential answer, 429 the
    quota answer, 400 the configuration answer, anything else the generic
    one; and where the body would quote the message it quotes the fixed
    default of its branch instead. *)
Theorem failure_without_message_goes_by_status
  (sanitize : jsstring -> jsstring) (req_body : jsvalue) (input : jsstring)
  (w : world) (e : jserror) :
  enhanceRequestSchema_parse req_body = inl input ->
  race_result w = inr e ->
  message e = None \/ message e = Some [] ->
  sent (snd (Server.handle sanitize req_body w))
  = [if status_is e 403 then
       {| res_status := 500;
          res_body := body_enhanced
            (Server.credential_guidance
             ++ lit "API key invalid or leaked") |}
     else if status_is e 429 then
       {| res_status := 200; res_body := body_enhanced Server.quota_text |}
     else if status_is e 400 then
       {| res_status := 500;
          res_body := body_enhanced
            (Server.configuration_heading ++ lit "Invalid configuration") |}
     else
       {| res_status := 500;
          res_body := body_enhanced
            (Server.generic_heading ++ lit "Unknown error"
             ++ Server.generic_footer) |}].
Proof.
  intros Hp Hw Hm.
  destruct (handle_accepted_sent sanitize _ _ w Hp) as (_ & r & Hs & Hr).
  rewrite Hw in Hr. rewrite Hs. f_equal.
  rewrite (proj1 (first_match_chain e)) in Hr. injection Hr as <-.
  assert (Hinc : forall needle, needle <> [] ->
                   opt_includes (message e) needle = false)
    by (intros needle; apply opt_includes_blank; exact Hm).
  assert (Hor : forall d, or_else (message e) d = d)
    by (intros d; destruct Hm as [-> | ->]; reflexivity).
  assert (Ht : Server.is_timeout e = false)
    by (unfold Server.is_timeout; destruct Hm as [-> | ->]; reflexivity).
  unfold Server.is_credential, Server.is_quota, Server.is_configuration,
    Server.credential_text, Server.configuration_text, Server.generic_text.
  rewrite Ht, !Hor, !Hinc by (vm_compute; discriminate).
  rewrite !orb_false_r. reflexivity.
Qed.

Lemma failure_without_message_goes_by_status_witness :
  enhanceRequestSchema_parse photographer_request = inl photographer_idea
  /\ sent (snd (Server.handle demo_sanitize photographer_request
                  (ProviderFirst
                     (Rejects {| message := None; stack := None;
                                 status := Some 429%Z; code := None;
                                 name := None |}))))
     = [{| res_status := 200;
           res_body := body_enhanced Server.quota_text |}].
Proof.
  assert (Hp : enhanceRequestSchema_parse photographer_request
               = inl photographer_idea) by (vm_compute; reflexivity).
  split; [exact Hp|].
  exact (failure_without_message_goes_by_status demo_sanitize _ _
           (ProviderFirst
              (Rejects {| message := None; stack := None;
                          status := Some 429%Z; code := None;
                          name := None |}))
           _ Hp eq_refl (or_introl eq_refl)).
Defined.

(** ** The prompt template *)

Lemma masterPrompt_shape (s : jsstring) :
  masterPrompt s
  = (newline ++ lit "      "
     ++ lit "Act as an elite Product Development Team." ++ newline
     ++ lit "      " ++ lit "Analyze the following web app idea: "
     ++ quote)
    ++ s
    ++ skipn 92 (masterPrompt []).
Proof.
  unfold masterPrompt at 1. cbn [List.concat map].
  repeat rewrite <- app_assoc. do 7 f_equal.
Qed.

Lemma length_around (h s t : jsstring) :
  List.length (h ++ s ++ t) = (List.length h + List.length t) + List.length s.
Proof. rewrite !length_app. lia. Qed.

(** X8: the prompt is one fixed template with the sanitised idea set in
    once, verbatim: the same 92 code units before it and the same 524
    after it whatever the idea is. So the prompt is 616 code units longer
    than the idea, contains it, and two ideas give the same prompt only
    if they are the same idea. *)
Theorem prompt_is_fixed_template_around_idea :
  exists head tail,
    List.length head = 92 /\ List.length tail = 524
    /\ (forall s, masterPrompt s = head ++ s ++ tail)
    /\ (forall s, List.length (masterPrompt s) = 616 + List.length s)
    /\ (forall s, includes (masterPrompt s) s = true)
    /\ (forall s1 s2, masterPrompt s1 = masterPrompt s2 <-> s1 = s2).
Proof.
  exists (newline ++ lit "      "
          ++ lit "Act as an elite Product Development Team." ++ newline
          ++ lit "      " ++ lit "Analyze the following web app idea: "
          ++ quote),
         (skipn 92 (masterPrompt [])).
  split; [vm_compute; reflexivity|].
  split; [vm_compute; reflexivity|].
  split; [exact masterPrompt_shape|].
  split; [|split].
  - intros s. rewrite masterPrompt_shape, length_around. reflexivity.
  - intros s. rewrite masterPrompt_shape. apply includes_middle.
  - intros s1 s2. split; [|intros ->; reflexivity].
    rewrite (masterPrompt_shape s1), (masterPrompt_shape s2). intros H.
    apply app_inv_head in H. apply app_inv_tail in H. exact H.
Qed.

(** ** What the schema hands on *)

Lemma trimStart_head (s : jsstring) (c : code_unit) (rest : jsstring) :
  trimStart s = c :: rest -> is_white_space c = false.
Proof.
  induction s as [|a s IH]; simpl; [discriminate|].
  destruct (is_white_space a) eqn:Ha; [exact IH|].
  intros [= <- _]. exact Ha.
Qed.

Lemma trimStart_fixed (s : jsstring) :
  (forall c rest, s = c :: rest -> is_white_space c = false) ->
  trimStart s = s.
Proof.
  destruct s as [|a s]; [reflexivity|].
  intros H. simpl. rewrite (H a s eq_refl). reflexivity.
Qed.

Lemma trimStart_idempotent (s : jsstring) :
  trimStart (trimStart s) = trimStart s.
Proof.
  apply trimStart_fixed. intros c rest. apply trimStart_head.
Qed.

Lemma trimStart_suffix (s : jsstring) : exists p, s = p ++ trimStart s.
Proof.
  induction s as [|a s [p IH]]; [exists []; reflexivity|].
  simpl. destruct (is_white_space a).
  - exists (a :: p). simpl. rewrite <- IH. reflexivity.
  - exists []. reflexivity.
Qed.

Lemma trimEnd_prefix (t : jsstring) : exists q, t = trimEnd t ++ q.
Proof.
  unfold trimEnd. destruct (trimStart_suffix (rev t)) as [p Hp].
  exists (rev p). rewrite <- rev_app_distr, <- Hp, rev_involutive.
  reflexivity.
Qed.

Lemma trim_head (s : jsstring) (c : code_unit) (rest : jsstring) :
  trim s = c :: rest -> is_white_space c = false.
Proof.
  unfold trim. intros H.
  destruct (trimEnd_prefix (trimStart s)) as [q Hq].
  rewrite H in Hq. simpl in Hq.
  exact (trimStart_head s _ _ Hq).
Qed.

Lemma trim_last (s : jsstring) (c : code_unit) (front : jsstring) :
  trim s = front ++ [c] -> is_white_space c = false.
Proof.
  unfold trim, trimEnd. intros H.
  apply (f_equal (@rev code_unit)) in H.
  rewrite rev_involutive, rev_app_distr in H. simpl in H.
  exact (trimStart_head _ _ _ H).
Qed.

Lemma trim_idempotent (s : jsstring) : trim (trim s) = trim s.
Proof.
  unfold trim at 1.
  rewrite (trimStart_fixed (trim s)) by (intros c rest; apply trim_head).
  unfold trimEnd, trim, trimEnd.
  rewrite rev_involutive, trimStart_idempotent. reflexivity.
Qed.

(** X9: the value the schema hands to the sanitiser is the input trimmed:
    at most 1000 code units long, with no white space at its first or its
    last position, and trimming it again changes nothing. *)
Theorem accepted_input_is_trimmed_and_bounded
  (req_body : jsvalue) (input : jsstring) :
  enhanceRequestSchema_parse req_body = inl input ->
  List.length input <= 1000
  /\ trim input = input
  /\ (forall c rest, input = c :: rest -> is_white_space c = false)
  /\ (forall c front, input = front ++ [c] -> is_white_space c = false).
Proof.
  intros Hp. destruct (parse_inl_inv _ _ Hp) as (s & _ & Hlen & ->).
  split; [pose proof (trim_length s); lia|].
  split; [apply trim_idempotent|].
  split; intros c x; [apply trim_head|apply trim_last].
Qed.

Lemma accepted_input_is_trimmed_and_bounded_witness :
  enhanceRequestSchema_parse (request (lit "  a shop  ")) = inl (lit "a shop")
  /\ trim (lit "a shop") = lit "a shop".
Proof.
  assert (Hp : enhanceRequestSchema_parse (request (lit "  a shop  "))
               = inl (lit "a shop")) by (vm_compute; reflexivity).
  split; [exact Hp|].
  exact (proj1 (proj2 (accepted_input_is_trimmed_and_bounded _ _ Hp))).
Defined.

(** ** The origin check *)

Lemma startsWith_inv (s prefix : jsstring) :
  startsWith s prefix = true -> exists t, s = prefix ++ t.
Proof.
  revert s. induction prefix as [|p prefix IH]; intros s.
  - intros _. exists s. reflexivity.
  - destruct s as [|c s]; simpl; [discriminate|].
    intros H. apply andb_true_iff in H as [Hc Hs].
    apply N.eqb_eq in Hc. subst c.
    destruct (IH s Hs) as [t ->]. exists t. reflexivity.
Qed.

Lemma endsWith_includes (s suffix : jsstring) :
  endsWith s suffix = true -> includes s suffix = true.
Proof.
  unfold endsWith. intros H.
  destruct (startsWith_inv _ _ H) as [t Ht].
  apply (f_equal (@rev code_unit)) in Ht.
  rewrite rev_involutive, rev_app_distr, rev_involutive in Ht. subst s.
  apply includes_app_r, includes_startsWith.
  rewrite <- (app_nil_r suffix) at 1. apply startsWith_self_app.
Qed.

Lemma v1_local_is_local (o : jsstring) :
  CorsV1.is_local o = true -> Cors.is_local o = true.
Proof.
  unfold CorsV1.is_local, Cors.is_local. intros H.
  apply orb_true_iff in H as [H|H]; rewrite H;
    rewrite ?orb_true_r; reflexivity.
Qed.

(** X10: the origin check was only ever relaxed: every [Origin] header
    that the earlier [corsOptions] let through is let through by the
    current one, without a warning. *)
Theorem cors_allows_whatever_v1_allowed (header : option jsstring) :
  snd (CorsV1.origin header) = cors_allow ->
  Cors.origin header = ([], cors_allow).
Proof.
  destruct header as [[|c o]|]; try reflexivity.
  unfold CorsV1.origin, Cors.origin.
  destruct (CorsV1.is_local (c :: o)) eqn:Hl.
  - rewrite (v1_local_is_local _ Hl). reflexivity.
  - destruct (endsWith (c :: o) (lit ".vercel.app")) eqn:He.
    + rewrite (endsWith_includes _ _ He).
      destruct (Cors.is_local (c :: o)); reflexivity.
    + simpl. discriminate.
Qed.

Lemma cors_allows_whatever_v1_allowed_witness :
  snd (CorsV1.origin (Some (lit "https://vibe-coder.vercel.app")))
  = cors_allow
  /\ Cors.origin (Some (lit "https://vibe-coder.vercel.app"))
     = ([], cors_allow).
Proof.
  assert (H : snd (CorsV1.origin (Some (lit "https://vibe-coder.vercel.app")))
              = cors_allow) by (vm_compute; reflexivity).
  split; [exact H|].
  exact (cors_allows_whatever_v1_allowed _ H).
Defined.

(** X11: the current rules test a prefix or a substring and nothing
    else: an origin is let through whatever follows one of the four
    local prefixes, and whatever surrounds '.vercel.app' or
    '.onrender.com', wherever in the origin the marker stands. The
    earlier check, which wanted '.vercel.app' at the end, refused every
    https origin that ends in '.onrender.com', with one warning. *)
Theorem cors_rules_look_at_a_fragment_only (a b : jsstring) :
  Cors.origin (Some (lit "http://localhost:" ++ b)) = ([], cors_allow)
  /\ Cors.origin (Some (lit "https://localhost:" ++ b)) = ([], cors_allow)
  /\ Cors.origin (Some (lit "http://127.0.0.1:" ++ b)) = ([], cors_allow)
  /\ Cors.origin (Some (lit "https://127.0.0.1:" ++ b)) = ([], cors_allow)
  /\ Cors.origin (Some (a ++ lit ".vercel.app" ++ b)) = ([], cors_allow)
  /\ Cors.origin (Some (a ++ lit ".onrender.com" ++ b)) = ([], cors_allow)
  /\ CorsV1.origin (Some (lit "https://" ++ a ++ lit ".onrender.com"))
     = ([warn (lit "Blocked by CORS:")
              (lit "https://" ++ a ++ lit ".onrender.com")],
        cors_refuse (new_Error (lit "Not allowed by CORS"))).
Proof.
  assert (Hlocal : forall p o, Cors.is_local (p ++ o) = true ->
                     Cors.origin (Some (p ++ o)) = ([], cors_allow)).
  { intros p o Hl. unfold Cors.origin.
    destruct (p ++ o) as [|c l] eqn:E; [reflexivity|].
    rewrite Hl. reflexivity. }
  assert (Hmark : forall m,
            (includes (a ++ m ++ b) (lit ".vercel.app") = true
             \/ includes (a ++ m ++ b) (lit ".onrender.com") = true) ->
            Cors.origin (Some (a ++ m ++ b)) = ([], cors_allow)).
  { intros m Hinc. unfold Cors.origin.
    destruct (a ++ m ++ b) as [|c l] eqn:E; [reflexivity|].
    destruct (Cors.is_local (c :: l)); [reflexivity|].
    destruct Hinc as [-> | ->]; [reflexivity|].
    destruct (includes (c :: l) (lit ".vercel.app")); reflexivity. }
  split; [|split; [|split; [|split; [|split; [|split]]]]].
  - apply (Hlocal (lit "http://localhost:") b).
    unfold Cors.is_local. rewrite startsWith_self_app. reflexivity.
  - apply (Hlocal (lit "https://localhost:") b).
    unfold Cors.is_local. rewrite (startsWith_self_app (lit "https://localhost:")).
    rewrite ?orb_true_r. reflexivity.
  - apply (Hlocal (lit "http://127.0.0.1:") b).
    unfold Cors.is_local. rewrite (startsWith_self_app (lit "http://127.0.0.1:")).
    rewrite ?orb_true_r. reflexivity.
  - apply (Hlocal (lit "https://127.0.0.1:") b).
    unfold Cors.is_local. rewrite (startsWith_self_app (lit "https://127.0.0.1:")).
    rewrite ?orb_true_r. reflexivity.
  - apply Hmark. left. apply includes_middle.
  - apply Hmark. right. apply includes_middle.
  - unfold CorsV1.origin.
    change (lit "https://" ++ a ++ lit ".onrender.com")
      with (104%N :: (lit "ttps://" ++ a ++ lit ".onrender.com")).
    cbv beta iota.
    assert (Hl : CorsV1.is_local
                   (104%N :: lit "ttps://" ++ a ++ lit ".onrender.com")
                 = false) by reflexivity.
    rewrite Hl.
    assert (He : endsWith
                   (104%N :: lit "ttps://" ++ a ++ lit ".onrender.com")
                   (lit ".vercel.app") = false).
    { unfold endsWith.
      change (104%N :: lit "ttps://" ++ a ++ lit ".onrender.com")
        with ((lit "https://" ++ a) ++ lit ".onrender.com").
      rewrite rev_app_distr. reflexivity. }
    rewrite He. reflexivity.
Qed.

(** ** The client against the server *)

Lemma string_input_request (s : jsstring) : string_input (request s) = Some s.
Proof. reflexivity. Qed.

Lemma begin_inv (st st1 : Client.state) (req_body : jsvalue) :
  Client.enhanceIdea_begin st = Some (st1, req_body) ->
  trim (Client.input st) <> []
  /\ req_body = request (Client.input st)
  /\ st1 = {| Client.input := Client.input st;
              Client.output := JString [];
              Client.loading := true;
              Client.copied := Client.copied st |}.
Proof.
  unfold Client.enhanceIdea_begin.
  destruct (trim (Client.input st)) as [|c t]; [discriminate|].
  intros [= <- <-]. repeat split. discriminate.
Qed.

Lemma begin_accepted (st st1 : Client.state) (req_body : jsvalue) :
  Client.enhanceIdea_begin st = Some (st1, req_body) ->
  List.length (Client.input st) <= 1000 ->
  enhanceRequestSchema_parse req_body = inl (trim (Client.input st)).
Proof.
  intros Hb Hlen. destruct (begin_inv _ _ _ Hb) as (Hne & -> & _).
  apply parse_accepts; [apply string_input_request|].
  split; [|exact Hlen].
  pose proof (trim_length (Client.input st)) as Ht.
  destruct (trim (Client.input st)); [congruence|]. simpl in Ht. lia.
Qed.

(** X12: whatever [enhanceIdea] posts is accepted by the server's schema
    as long as the text is within the 1000 code units that the textarea
    allows: the hook sends nothing for a blank input, so the idea that
    reaches the sanitiser is the trimmed text and is never empty. *)
Theorem client_request_passes_the_schema
  (st st1 : Client.state) (req_body : jsvalue) :
  Client.enhanceIdea_begin st = Some (st1, req_body) ->
  List.length (Client.input st) <= 1000 ->
  enhanceRequestSchema_parse req_body = inl (trim (Client.input st))
  /\ trim (Client.input st) <> []
  /\ Client.loading st1 = true
  /\ Client.input st1 = Client.input st.
Proof.
  intros Hb Hlen. split; [exact (begin_accepted _ _ _ Hb Hlen)|].
  destruct (begin_inv _ _ _ Hb) as (Hne & -> & ->).
  repeat split. exact Hne.
Qed.

Lemma client_request_passes_the_schema_witness :
  Client.enhanceIdea_begin (Client.setInput (lit " a shop ") Client.initial)
  = Some ({| Client.input := lit " a shop "; Client.output := JString [];
             Client.loading := true; Client.copied := false |},
          request (lit " a shop "))
  /\ enhanceRequestSchema_parse (request (lit " a shop "))
     = inl (lit "a shop").
Proof.
  assert (Hb : Client.enhanceIdea_begin
                 (Client.setInput (lit " a shop ") Client.initial)
               = Some ({| Client.input := lit " a shop ";
                          Client.output := JString [];
                          Client.loading := true;
                          Client.copied := false |},
                       request (lit " a shop ")))
    by (vm_compute; reflexivity).
  split; [exact Hb|].
  refine (proj1 (client_request_passes_the_schema _ _ _ Hb _)).
  vm_compute. lia.
Defined.

(** X13: end to end, the page shows the server's text only for a 200.
    After a request the hook has posted, and whatever the state has become
    in the meantime, the output is the provider's text on success and the
    quota text on a failure that the quota rule answers; for every 408 and
    500 the hook throws on [response.ok] and shows its own fixed error
    line, so the server's timeout, credential, configuration and generic
    texts never reach the page. *)
Theorem page_shows_server_text_only_on_200
  (sanitize : jsstring -> jsstring) (st st1 prev : Client.state)
  (req_body : jsvalue) (w : world) :
  Client.enhanceIdea_begin st = Some (st1, req_body) ->
  List.length (Client.input st) <= 1000 ->
  exists r,
    sent (snd (Server.handle sanitize req_body w)) = [r]
    /\ Client.enhanceIdea_settle (Client.over_the_wire r) prev
       = match race_result w with
         | inl T => Client.updated (Client.show prev (JString T)) []
         | inr e =>
             match Spec.classify e with
             | Some Spec.quota_failure =>
                 Client.updated
                   (Client.show prev (JString Server.quota_text)) []
             | Some Spec.timeout_failure =>
                 Client.updated
                   (Client.show prev (JString Client.error_text))
                   [Client.http_error 408]
             | _ =>
                 Client.updated
                   (Client.show prev (JString Client.error_text))
                   [Client.http_error 500]
             end
         end.
Proof.
  intros Hb Hlen.
  pose proof (begin_accepted _ _ _ Hb Hlen) as Hp.
  destruct (handle_accepted_sent sanitize _ _ w Hp) as (_ & r & Hs & Hr).
  exists r. split; [exact Hs|].
  destruct (race_result w) as [T|e].
  - subst r. reflexivity.
  - destruct (first_match_chain e) as [Ha Hk].
    rewrite Ha in Hr. injection Hr as <-. rewrite Hk.
    destruct (Server.is_timeout e), (Server.is_credential e),
      (Server.is_quota e), (Server.is_configuration e); reflexivity.
Qed.

Lemma page_shows_server_text_only_on_200_witness :
  Client.enhanceIdea_begin (Client.setInput photographer_idea Client.initial)
  = Some ({| Client.input := photographer_idea;
             Client.output := JString [];
             Client.loading := true;
             Client.copied := false |},
          photographer_request)
  /\ List.length
       (Client.input (Client.setInput photographer_idea Client.initial))
     <= 1000
  /\ exists r,
       sent (snd (Server.handle demo_sanitize photographer_request
                    (TimerFirst None))) = [r]
       /\ Client.enhanceIdea_settle (Client.over_the_wire r) Client.initial
          = Client.updated
              (Client.show Client.initial (JString Client.error_text))
              [Client.http_error 408].
Proof.
  assert (Hb : Client.enhanceIdea_begin
                 (Client.setInput photographer_idea Client.initial)
               = Some ({| Client.input := photographer_idea;
                          Client.output := JString [];
                          Client.loading := true;
                          Client.copied := false |},
                       photographer_request))
    by (vm_compute; reflexivity).
  assert (Hlen : List.length
                   (Client.input
                      (Client.setInput photographer_idea Client.initial))
                 <= 1000) by (vm_compute; lia).
  split; [exact Hb|]. split; [exact Hlen|].
  exact (page_shows_server_text_only_on_200 demo_sanitize _ _
           Client.initial _ (TimerFirst None) Hb Hlen).
Defined.

(** X14: the hook's last update, when it takes place, switches
    [loading] off and leaves [input] and [copied] as they were; nothing is
    written to the console exactly when the status is ok and [enhanced]
    could be read from the body, in which case the output is that
    property (undefined if the body has none), and in every other such
    case (fetch rejected, status not ok, body not JSON) the output is the
    fixed error line. The update does not take place exactly when the
    status is ok and the body is a JSON [null]: [data.enhanced] then
    throws inside the state updater, outside the [try], so the hook's
    [catch] never runs and [loading] is never switched off. *)
Theorem settle_ends_loading_unless_body_is_null
  (o : Client.fetch_outcome) (prev : Client.state) :
  (Client.enhanceIdea_settle o prev = Client.updater_throws
   <-> exists http_status data,
         o = Client.fetch_resolves http_status (Some data)
         /\ Client.ok http_status = true
         /\ (data = JNull \/ data = JUndefined))
  /\ match Client.enhanceIdea_settle o prev with
     | Client.updated st console =>
         Client.loading st = false
         /\ Client.input st = Client.input prev
         /\ Client.copied st = Client.copied prev
         /\ (console = []
             <-> exists http_status data,
                   o = Client.fetch_resolves http_status (Some data)
                   /\ Client.ok http_status = true
                   /\ Client.data_enhanced data = Some (Client.output st))
         /\ (console = [] \/ Client.output st = JString Client.error_text)
     | Client.updater_throws => True
     end.
Proof.
  unfold Client.enhanceIdea_settle.
  destruct o as [|http_status [data|]].
  - split.
    + split; [discriminate|]. intros (s' & d & H & _). discriminate.
    + cbn. repeat split; auto; try discriminate.
      intros (s' & d & H & _). discriminate.
  - destruct (Client.ok http_status) eqn:Hok.
    + destruct (Client.data_enhanced data) as [v|] eqn:Hd.
      * split.
        -- split; [discriminate|].
           intros (s' & d & [= <- <-] & _ & [-> | ->]); discriminate.
        -- cbn. repeat split; auto.
           intros _. exists http_status, data. auto.
      * split; [|exact I]. split; [|reflexivity].
        intros _. exists http_status, data.
        repeat split; auto.
        destruct data; try discriminate; auto.
    + split.
      * split; [discriminate|].
        intros (s' & d & [= <- <-] & Hok' & _). congruence.
      * cbn. repeat split; auto; try discriminate.
        intros (s' & d & [= <- <-] & Hok' & _). congruence.
  - destruct (Client.ok http_status); (split;
      [split; [discriminate|intros (s' & d & H & _); discriminate]
      |cbn; repeat split; auto; try discriminate;
       intros (s' & d & H & _); discriminate]).
Qed.

(** ** The provider call across the revisions *)

(** X15: the earlier handler calls the provider as the current one does:
    once for an accepted request, with the same prompt around the same
    sanitised input, whatever the race brings, and never for a refused
    request. *)
Theorem revisions_call_the_provider_alike
  (sanitize : jsstring -> jsstring) (req_body : jsvalue) (w : world) :
  provider_calls (snd (ServerV1.handle sanitize req_body w))
  = provider_calls (snd (Server.handle sanitize req_body w))
  /\ provider_calls (snd (ServerV1.handle sanitize req_body w))
     = match enhanceRequestSchema_parse req_body with
       | inl input => [masterPrompt (sanitize input)]
       | inr _ => []
       end.
Proof.
  destruct (enhanceRequestSchema_parse req_body) as [input|issues] eqn:Hp.
  - rewrite (handle_valid_calls sanitize _ _ w Hp).
    rewrite (v1_handle_valid sanitize _ _ w Hp).
    destruct (race_result w) as [T|e]; [split; reflexivity|].
    rewrite (proj2 (v1_on_error_failure e _)). split; reflexivity.
  - rewrite (handle_invalid sanitize _ _ w Hp).
    rewrite (v1_handle_invalid sanitize _ _ w Hp). split; reflexivity.
Qed.
